(** * Fluffy.Bot: scheduled direct messages

    A shallow embedding of [main.py] and the properties of its time
    converter, persistence store, attachment fetcher, delivery dispatcher
    and command handlers.

    Conventions of the embedding.
    - A Python [str] is a [string]; a character is a code point below 256.
    - An instant is a number of microseconds (the resolution of [datetime]
      and of PostgreSQL's [timestamptz]); a calendar date is kept as its
      proleptic Gregorian ordinal ([date.toordinal()]), which determines
      year, month and day, and is not bounded by the year 9999.
    - The [schedules] table is the list of its rows in insertion order,
      together with the next value of the [SERIAL] sequence.
    - Code that raises returns a [sum]: [inl] the exception, [inr] the
      value. Code that also touches the database, the network or the
      console runs in the state-and-exception monad [M]. The database
      itself is taken to answer every query it receives; a schedule id
      given to a command that does not fit the 32-bit [id] column never
      reaches it, asyncpg raising [DataError]. *)

From Stdlib Require Import ZArith List String Ascii Bool Lia.
From Stdlib Require Import Sorting.Sorted Sorting.Permutation.
From Stdlib Require DecimalString.
Import ListNotations.

Local Open Scope string_scope.
Local Open Scope Z_scope.

(* ===================================================================== *)
(** ** Python strings *)
(* ===================================================================== *)

Module PyStr.

(** [str.isspace] on one character, which is also what [\s] matches and
    what [str.strip()] removes: for code points below 256 these are
    TAB..CR, FS..US, SPACE, NEL and NBSP. *)
Definition isspace (c : ascii) : bool :=
  let n := Z.of_N (N_of_ascii c) in
  ((9 <=? n) && (n <=? 13)) || ((28 <=? n) && (n <=? 32))
  || (n =? 133) || (n =? 160).

(** [\d] and [str.isdigit] below code point 256: the ASCII digits. *)
Definition isdigit (c : ascii) : bool :=
  let n := Z.of_N (N_of_ascii c) in (48 <=? n) && (n <=? 57).

Definition digit_value (c : ascii) : Z := Z.of_N (N_of_ascii c) - 48.

(** [c] lies between the characters [lo] and [hi], as in a class [[lo-hi]]. *)
Definition in_class (lo hi c : ascii) : bool :=
  (N_of_ascii lo <=? N_of_ascii c)%N && (N_of_ascii c <=? N_of_ascii hi)%N.

(** [ch.lower()] for the ASCII letters, which is all [re.IGNORECASE]
    folds onto [a], [m] and [p]. *)
Definition lower (c : ascii) : ascii :=
  let n := N_of_ascii c in
  if (65 <=? n)%N && (n <=? 90)%N then ascii_of_N (n + 32) else c.

Fixpoint all_space (s : string) : bool :=
  match s with
  | EmptyString => true
  | String c s' => isspace c && all_space s'
  end.

Fixpoint lstrip (s : string) : string :=
  match s with
  | EmptyString => EmptyString
  | String c s' => if isspace c then lstrip s' else s
  end.

Fixpoint rstrip (s : string) : string :=
  match s with
  | EmptyString => EmptyString
  | String c s' =>
      match rstrip s' with
      | EmptyString => if isspace c then EmptyString else String c EmptyString
      | r => String c r
      end
  end.

(** [s.strip()] *)
Definition strip (s : string) : string := rstrip (lstrip s).

(** [s.split(sep)] for a separator of one character: never empty. *)
Fixpoint split (sep : ascii) (s : string) : list string :=
  match s with
  | EmptyString => [EmptyString]
  | String c s' =>
      if Ascii.eqb c sep then EmptyString :: split sep s'
      else match split sep s' with
           | h :: t => String c h :: t
           | [] => [String c EmptyString]
           end
  end.

(** [sep.join(l)] *)
Fixpoint join (sep : ascii) (l : list string) : string :=
  match l with
  | [] => EmptyString
  | [x] => x
  | x :: l' => x ++ String sep (join sep l')
  end.

(** [l[0]] and [l[-1]] on the result of a [split], which has an element. *)
Definition first (l : list string) : string := hd EmptyString l.
Definition last (l : list string) : string := List.last l EmptyString.

(** [x or y] on strings: the empty string is falsy. *)
Definition or_else (x y : string) : string :=
  match x with EmptyString => y | _ => x end.

(** [x or y] where [x] may be [None]. *)
Definition opt_or (x : option string) (y : string) : string :=
  match x with Some s => or_else s y | None => y end.

(** [str(n)] for an [int]. *)
Definition str_of_Z (n : Z) : string :=
  DecimalString.NilZero.string_of_int (Z.to_int n).

(** [n] printed in at least two digits, as [%02d]. *)
Definition pad2 (n : Z) : string :=
  if (0 <=? n) && (n <? 10) then "0" ++ str_of_Z n else str_of_Z n.

Definition contains (c : ascii) (s : string) : bool :=
  existsb (Ascii.eqb c) (list_ascii_of_string s).

End PyStr.

(* ===================================================================== *)
(** ** [datetime.strptime(s, "%I:%M %p").time()] *)
(* ===================================================================== *)

Module Strptime.
Import PyStr.

(** The value of [time()]: only hour and minute are set by the format. *)
Record time := mk_time { t_hour : Z; t_minute : Z }.

Inductive meridiem := AM | PM.

(** The groups of a successful [re.match]: [I], [M], [p] and the text the
    match did not consume. *)
Record groups := mk_groups
  { g_I : string; g_M : string; g_p : meridiem; g_rest : string }.

(** First alternative that matches, as a backtracking matcher tries them. *)
Definition orelse {A} (x y : option A) : option A :=
  match x with Some _ => x | None => y end.

(** [(am|pm)] under [re.IGNORECASE], then the end of the pattern. *)
Definition re_p (I M : string) (s : string) : option groups :=
  match s with
  | String a (String m rest) =>
      if Ascii.eqb (lower m) "m" then
        if Ascii.eqb (lower a) "a" then Some (mk_groups I M AM rest)
        else if Ascii.eqb (lower a) "p" then Some (mk_groups I M PM rest)
        else None
      else None
  | _ => None
  end.

(** [\s+]: greedy, giving characters back only if what follows fails. *)
Fixpoint re_spaces (I M : string) (s : string) : option groups :=
  match s with
  | String c s' =>
      if isspace c then orelse (re_spaces I M s') (re_p I M s') else None
  | EmptyString => None
  end.

(** [(?P<M>[0-5]\d|\d)] *)
Definition re_M (I : string) (s : string) : option groups :=
  match s with
  | String c1 s1 =>
      orelse
        (match s1 with
         | String c2 s2 =>
             if in_class "0" "5" c1 && isdigit c2
             then re_spaces I (String c1 (String c2 "")) s2 else None
         | EmptyString => None
         end)
        (if isdigit c1 then re_spaces I (String c1 "") s1 else None)
  | EmptyString => None
  end.

(** The literal [:] *)
Definition re_colon (I : string) (s : string) : option groups :=
  match s with
  | String c s' => if Ascii.eqb c ":" then re_M I s' else None
  | EmptyString => None
  end.

(** [(?P<I>1[0-2]|0[1-9]|[1-9])] and then the rest of the pattern
    [(?P<I>1[0-2]|0[1-9]|[1-9]):(?P<M>[0-5]\d|\d)\s+(?P<p>am|pm)]. *)
Definition re_match (s : string) : option groups :=
  match s with
  | String c1 s1 =>
      orelse
        (match s1 with
         | String c2 s2 =>
             orelse
               (if Ascii.eqb c1 "1" && in_class "0" "2" c2
                then re_colon (String c1 (String c2 "")) s2 else None)
               (if Ascii.eqb c1 "0" && in_class "1" "9" c2
                then re_colon (String c1 (String c2 "")) s2 else None)
         | EmptyString => None
         end)
        (if in_class "1" "9" c1 then re_colon (String c1 "") s1 else None)
  | EmptyString => None
  end.

(** [int(s)] on a string of ASCII digits. *)
Definition int_of (s : string) : Z :=
  fold_left (fun acc c => 10 * acc + digit_value c) (list_ascii_of_string s) 0.

(** [%I] with [%p]: 12 AM is hour 0, 12 PM stays 12, other PM hours add 12. *)
Definition hour24 (h : Z) (p : meridiem) : Z :=
  match p with
  | AM => if h =? 12 then 0 else h
  | PM => if h =? 12 then 12 else h + 12
  end.

(** [None] stands for [ValueError]: no match, or unconverted data remains. *)
Definition strptime_I_M_p (s : string) : option time :=
  match re_match s with
  | None => None
  | Some g =>
      match g_rest g with
      | EmptyString =>
          Some (mk_time (hour24 (int_of (g_I g)) (g_p g)) (int_of (g_M g)))
      | String _ _ => None
      end
  end.

End Strptime.

(* ===================================================================== *)
(** ** The 12-hour clock format, in words *)
(* ===================================================================== *)

Module TimeFormat.
Import PyStr Strptime.

(** An hour 1-12 written with one or two digits. *)
Definition hour_numeral (H : string) : bool :=
  match H with
  | String c EmptyString => in_class "1" "9" c
  | String c1 (String c2 EmptyString) =>
      (Ascii.eqb c1 "0" && in_class "1" "9" c2)
      || (Ascii.eqb c1 "1" && in_class "0" "2" c2)
  | _ => false
  end.

(** A minute 00-59 written with two digits. *)
Definition minute_two_digits (M : string) : bool :=
  match M with
  | String c1 (String c2 EmptyString) => in_class "0" "5" c1 && isdigit c2
  | _ => false
  end.

(** A minute 0-59 written with one or two digits. *)
Definition minute_one_or_two_digits (M : string) : bool :=
  match M with
  | String c EmptyString => isdigit c
  | _ => minute_two_digits M
  end.

(** An AM/PM marker, in either letter case. *)
Definition marker (P : string) : bool :=
  match P with
  | String a (String m EmptyString) =>
      (Ascii.eqb (lower a) "a" || Ascii.eqb (lower a) "p")
      && Ascii.eqb (lower m) "m"
  | _ => false
  end.

Definition meridiem_of (P : string) : meridiem :=
  match P with
  | String a _ => if Ascii.eqb (lower a) "a" then AM else PM
  | EmptyString => AM
  end.

(** [s], surrounding whitespace apart, is an hour, a colon, a minute,
    whitespace and a marker. *)
Definition clock_format (minute_ok : string -> bool) (s : string) : Prop :=
  exists H M ws P,
    strip s = H ++ ":" ++ M ++ ws ++ P /\
    hour_numeral H = true /\ minute_ok M = true /\
    ws <> EmptyString /\ all_space ws = true /\ marker P = true.

(** The strict 12-hour clock format of the specification: hour 1-12,
    minute 00-59, AM/PM marker. Where the words are silent (the letter
    case of the marker, the width of the gap before it, whitespace around
    the whole) the reading is the widest one. *)
Definition strict_12h : string -> Prop := clock_format minute_two_digits.

(** The format with the minute in one or two digits. *)
Definition lenient_12h : string -> Prop := clock_format minute_one_or_two_digits.

End TimeFormat.

(* ===================================================================== *)
(** ** Exceptions *)
(* ===================================================================== *)

(** The exception classes the program meets, each with its [str(e)]:
    [ValueError] from the time parser, [ClientError] from aiohttp
    ([raise_for_status], transport failures), [DiscordException] from
    discord.py ([fetch_user], [send]), [PostgresError] from the server
    through asyncpg, [DataError] from asyncpg for an argument it cannot
    encode. All derive from [Exception]. *)
Inductive exception :=
| ValueError (msg : string)
| ClientError (msg : string)
| DiscordException (msg : string)
| PostgresError (msg : string)
| DataError (msg : string).

(** [str(e)] *)
Definition str_of_exception (e : exception) : string :=
  match e with
  | ValueError m | ClientError m | DiscordException m | PostgresError m
  | DataError m => m
  end.

(* ===================================================================== *)
(** ** [datetime], [timedelta] and pytz time zones *)
(* ===================================================================== *)

Module Datetime.
Import PyStr.

Definition US_PER_SECOND : Z := 1000000.
Definition US_PER_MINUTE : Z := 60 * US_PER_SECOND.
Definition US_PER_HOUR : Z := 60 * US_PER_MINUTE.
Definition US_PER_DAY : Z := 24 * US_PER_HOUR.

(** A naive [datetime]: a calendar date and a wall-clock time. *)
Record naive := mk_naive
  { ordinal : Z; hour : Z; minute : Z; second : Z; microsecond : Z }.

(** The fields are in range, as every [datetime] object has them. *)
Definition wf_naive (n : naive) : Prop :=
  0 <= hour n < 24 /\ 0 <= minute n < 60 /\ 0 <= second n < 60 /\
  0 <= microsecond n < US_PER_SECOND.

(** One of the [tzinfo] objects of a pytz zone: a UTC offset, which pytz
    rounds to whole minutes. *)
Record tzinfo := mk_tzinfo { utcoffset : Z }.

Definition UTC : tzinfo := mk_tzinfo 0.

(** An aware [datetime]. *)
Record datetime := mk_datetime { wall : naive; tz_of : tzinfo }.

(** Microseconds from midnight of ordinal 0 to the wall-clock reading. *)
Definition to_us (n : naive) : Z :=
  ordinal n * US_PER_DAY + hour n * US_PER_HOUR + minute n * US_PER_MINUTE
  + second n * US_PER_SECOND + microsecond n.

Definition of_us (w : Z) : naive :=
  mk_naive (w / US_PER_DAY) ((w / US_PER_HOUR) mod 24)
           ((w / US_PER_MINUTE) mod 60) ((w / US_PER_SECOND) mod 60)
           (w mod US_PER_SECOND).

(** The instant an aware datetime denotes, in UTC microseconds. *)
Definition instant (dt : datetime) : Z :=
  to_us (wall dt) - utcoffset (tz_of dt) * US_PER_MINUTE.

(** [timedelta(days=n)] *)
Definition timedelta_days (n : Z) : Z := n * US_PER_DAY.

(** [dt + delta]: arithmetic on the wall clock, the [tzinfo] is kept. *)
Definition add (dt : datetime) (delta : Z) : datetime :=
  mk_datetime (of_us (to_us (wall dt) + delta)) (tz_of dt).

(** [a <= b] on aware datetimes compares the instants (with one shared
    [tzinfo] object Python compares the wall clocks, which is the same). *)
Definition le (a b : datetime) : bool := instant a <=? instant b.

(** [dt.astimezone(pytz.UTC)] *)
Definition astimezone_utc (dt : datetime) : datetime :=
  mk_datetime (of_us (instant dt)) UTC.

(** A pytz zone, through the two methods the program calls:
    [fromutc] attaches to a UTC instant the [tzinfo] in force then;
    [localize] (with [is_dst=False]) attaches one to a wall-clock reading. *)
Record timezone := mk_timezone
  { fromutc_info : Z -> tzinfo; localize_info : naive -> tzinfo }.

(** The wall clock of zone [tz] at the UTC instant [u]:
    [datetime.now(tz)] when [u] is the current instant. *)
Definition at_instant (tz : timezone) (u : Z) : datetime :=
  let i := fromutc_info tz u in
  mk_datetime (of_us (u + utcoffset i * US_PER_MINUTE)) i.

(** [dt.astimezone(tz)] *)
Definition astimezone (tz : timezone) (dt : datetime) : datetime :=
  at_instant tz (instant dt).

(** [tz.localize(n)] *)
Definition localize (tz : timezone) (n : naive) : datetime :=
  mk_datetime n (localize_info tz n).

(** A zone whose offset never changes, such as the default [Asia/Riyadh]
    (UTC+3, [static_tz 180]) since 1947. *)
Definition static_tz (off : Z) : timezone :=
  mk_timezone (fun _ => mk_tzinfo off) (fun _ => mk_tzinfo off).

(** A zone around one change of its offset at the UTC instant [T], from
    [before] to [after]. [localize] with [is_dst=False] picks the standard
    time offset where the wall clock allows none or both: [before] for a
    reading skipped by a change to daylight saving time, [after] for a
    reading repeated by the change back. *)
Definition one_change_tz (T before after : Z) : timezone :=
  mk_timezone
    (fun u => mk_tzinfo (if u <? T then before else after))
    (fun n => mk_tzinfo (if to_us n <? T + after * US_PER_MINUTE
                         then before else after)).

(** [America/New_York] around 2024-03-10 07:00 UTC (ordinal 738955), when
    EST (UTC-5) gives way to EDT (UTC-4), *)
Definition new_york_spring_2024 : timezone :=
  one_change_tz (738955 * US_PER_DAY + 7 * US_PER_HOUR) (-300) (-240).

(** and around 2024-11-03 06:00 UTC (ordinal 739193), when EST returns. *)
Definition new_york_autumn_2024 : timezone :=
  one_change_tz (739193 * US_PER_DAY + 6 * US_PER_HOUR) (-240) (-300).

(** The time of day of a wall-clock reading, in microseconds. *)
Definition time_of_day (n : naive) : Z :=
  hour n * US_PER_HOUR + minute n * US_PER_MINUTE
  + second n * US_PER_SECOND + microsecond n.

(** Year, month and day of an ordinal ([date.fromordinal]). *)
Definition ord2ymd (ord : Z) : Z * Z * Z :=
  let z := ord - 719163 + 719468 in
  let era := z / 146097 in
  let doe := z - era * 146097 in
  let yoe := (doe - doe / 1460 + doe / 36524 - doe / 146096) / 365 in
  let doy := doe - (365 * yoe + yoe / 4 - yoe / 100) in
  let mp := (5 * doy + 2) / 153 in
  let d := doy - (153 * mp + 2) / 5 + 1 in
  let m := if mp <? 10 then mp + 3 else mp - 9 in
  let y := yoe + era * 400 + (if m <=? 2 then 1 else 0) in
  (y, m, d).

(** [%Y-%m-%d], the year as the C library prints it, without padding. *)
Definition strftime_Y_m_d (n : naive) : string :=
  let '(y, m, d) := ord2ymd (ordinal n) in
  str_of_Z y ++ "-" ++ pad2 m ++ "-" ++ pad2 d.

(** The hour on a 12-hour dial, as [%I] prints it. *)
Definition hour12 (h : Z) : Z := if h mod 12 =? 0 then 12 else h mod 12.

(** [%I:%M %p] *)
Definition strftime_I_M_p (n : naive) : string :=
  pad2 (hour12 (hour n)) ++ ":" ++ pad2 (minute n) ++ " "
  ++ (if hour n <? 12 then "AM" else "PM").

(** [n.strftime("%Y-%m-%d %I:%M %p")] *)
Definition strftime (n : naive) : string :=
  strftime_Y_m_d n ++ " " ++ strftime_I_M_p n.

End Datetime.

(* ===================================================================== *)
(** ** The time converter *)
(* ===================================================================== *)

Module TimeConverter.
Import PyStr Strptime Datetime.

Section WithZone.

(** [tz = pytz.timezone(DEFAULT_TZ)] *)
Variable tz : timezone.

(** [parse_time_12h_to_utc(time_str)], with the current instant
    [now_utc] that [datetime.now(tz)] reads. *)
Definition parse_time_12h_to_utc (now_utc : Z) (time_str : string)
  : exception + datetime :=
  match strptime_I_M_p (strip time_str) with
  | None => inl (ValueError "Time must be in 12-hour format like '02:30 PM'")
  | Some parsed_time =>
      let now_local := at_instant tz now_utc in
      let run_local :=
        localize tz (mk_naive (ordinal (wall now_local))
                              (t_hour parsed_time) (t_minute parsed_time) 0 0) in
      let run_local :=
        if le run_local now_local
        then add run_local (timedelta_days 1) else run_local in
      inr (astimezone_utc run_local)
  end.

(** [pretty_time_local(utc_dt)] *)
Definition pretty_time_local (utc_dt : datetime) : string :=
  let local := astimezone tz utc_dt in
  strftime (wall local).

End WithZone.

End TimeConverter.

(* ===================================================================== *)
(** ** The persistence store: table [schedules] *)
(* ===================================================================== *)

Module Store.

(** The values the program writes to the [status] column. *)
Inductive status := pending | sent | failed | canceled.

Definition status_eqb (a b : status) : bool :=
  match a, b with
  | pending, pending | sent, sent | failed, failed | canceled, canceled => true
  | _, _ => false
  end.

Definition status_text (s : status) : string :=
  match s with
  | pending => "pending" | sent => "sent"
  | failed => "failed" | canceled => "canceled"
  end.

(** A row. [run_at] and [created_at] are [timestamptz] instants. *)
Record schedule := mk_schedule
  { id : Z; user_id : Z; message : option string;
    attachment_url : option string; run_at : Z;
    status_of : status; created_at : Z }.

Definition set_status (s : status) (r : schedule) : schedule :=
  mk_schedule (id r) (user_id r) (message r) (attachment_url r) (run_at r)
              s (created_at r).

(** The table and the next value of the sequence behind [id SERIAL]. *)
Record table := mk_table { rows : list schedule; next_id : Z }.

Definition empty : table := mk_table [] 1.

(** [INSERT INTO schedules(user_id, message, attachment_url, run_at)
     VALUES($1,$2,$3,$4) RETURNING id]: [status] and [created_at] take
    their defaults ['pending'] and [now()]. *)
Definition add_schedule (now : Z) (uid : Z) (run_at_utc : Datetime.datetime)
    (msg url : option string) (t : table) : Z * table :=
  let sid := next_id t in
  (sid,
   mk_table (rows t ++ [mk_schedule sid uid msg url
                          (Datetime.instant run_at_utc) pending now])
            (sid + 1)).

(** [ORDER BY run_at ASC], as an insertion sort that keeps the table
    order among equal keys. *)
Fixpoint insert_by_run_at (x : schedule) (l : list schedule) : list schedule :=
  match l with
  | [] => [x]
  | y :: l' =>
      if run_at x <=? run_at y then x :: l else y :: insert_by_run_at x l'
  end.

Definition order_by_run_at (l : list schedule) : list schedule :=
  fold_right insert_by_run_at [] l.

(** The order of [ORDER BY run_at ASC]. *)
Definition by_run_at (a b : schedule) : Prop := run_at a <= run_at b.

(** [WHERE status='pending' AND run_at <= now()] *)
Definition is_due (now : Z) (r : schedule) : bool :=
  status_eqb (status_of r) pending && (run_at r <=? now).

(** [SELECT * FROM schedules WHERE status='pending' AND run_at <= now()
     ORDER BY run_at ASC LIMIT $1]; PostgreSQL refuses a negative limit.
    The limit is taken to be one asyncpg can encode (64 bits); the program
    passes 30. *)
Definition fetch_due (limit : Z) (now : Z) (t : table)
  : exception + list schedule :=
  if limit <? 0 then inl (PostgresError "LIMIT must not be negative")
  else inr (firstn (Z.to_nat limit)
                   (order_by_run_at (filter (is_due now) (rows t)))).

(** [UPDATE schedules SET status=$1 WHERE id=$2] *)
Definition mark_sent (sid : Z) (st : status) (t : table) : table :=
  mk_table (map (fun r => if id r =? sid then set_status st r else r) (rows t))
           (next_id t).

(** [SELECT * FROM schedules ORDER BY run_at ASC] *)
Definition get_all_schedules (t : table) : list schedule :=
  order_by_run_at (rows t).

(** [SELECT * FROM schedules WHERE id=$1] read with [fetchrow]: the first
    row with that id or [None]. *)
Definition find_row (sid : Z) (t : table) : option schedule :=
  find (fun r => id r =? sid) (rows t).

(** The values of the column type of [id], a 32-bit integer. *)
Definition in_int32 (n : Z) : bool := (- 2 ^ 31 <=? n) && (n <? 2 ^ 31).

(** [get_schedule(schedule_id)]: asyncpg encodes the argument for the
    [id] column and raises [DataError] when it does not fit 32 bits;
    otherwise the query runs. *)
Definition get_schedule (sid : Z) (t : table) : exception + option schedule :=
  if in_int32 sid then inr (find_row sid t)
  else inl (DataError ("invalid input for query argument $1: "
                       ++ PyStr.str_of_Z sid ++ " (value out of int32 range)")).

(** The rows [cancel_schedule] updates. The program calls
    [cancel_schedule] and [mark_sent] only with an id that a query has
    returned or accepted. *)
Definition cancelable (sid : Z) (r : schedule) : bool :=
  (id r =? sid) && status_eqb (status_of r) pending.

(** [UPDATE schedules SET status='canceled' WHERE id=$1 AND
     status='pending']; returns the number of rows updated, which asyncpg
    reports as the text [UPDATE n]. *)
Definition cancel_schedule (sid : Z) (t : table) : Z * table :=
  (Z.of_nat (List.length (filter (cancelable sid) (rows t))),
   mk_table (map (fun r => if cancelable sid r then set_status canceled r else r)
                 (rows t))
            (next_id t)).

(** What the [SERIAL PRIMARY KEY] maintains: the ids are distinct and
    below the next value of the sequence. *)
Definition fresh_ids (t : table) : Prop :=
  NoDup (map id (rows t)) /\ Forall (fun r => id r < next_id t) (rows t).

(** The changes of status the program can make to a row: none; out of
    [pending]; and from [canceled] to [sent] or [failed]. *)
Definition transition (a b : status) : Prop :=
  a = b \/ (a = pending /\ b <> pending)
  \/ (a = canceled /\ (b = sent \/ b = failed)).

End Store.

(* ===================================================================== *)
(** ** The bot: attachment fetcher, dispatcher and command handlers *)
(* ===================================================================== *)

Module Bot.
Import PyStr Datetime TimeConverter Store.

(** [discord.User] and [discord.Attachment], by the attributes used. *)
Record user := mk_user { u_id : Z; display_name : string }.
Record attachment := mk_attachment { url : string }.


(** What a handler sends with [interaction.followup.send(..., ephemeral=True)]. *)
Inductive reply :=
| InvalidTime
| Scheduled (sid : Z) (u : user) (local_time : string)
| NotFound
| AlreadyStatus (s : status)
| Canceled (sid : Z).


(** The state the program runs on: the database, the outside world
    (Discord and the web) and the lines printed so far. *)
Record state (World : Type) := mk_state
  { db : table; world : World; console : list string }.

Arguments mk_state {World} db world console.
Arguments db {World} s.
Arguments world {World} s.
Arguments console {World} s.

(** Computations that read and write the state and may raise. *)
Definition M (World A : Type) : Type :=
  state World -> (exception + A) * state World.

Section Monad.

Context {World : Type}.

Definition ret {A} (x : A) : M World A := fun s => (inr x, s).

Definition bind {A B} (c : M World A) (k : A -> M World B) : M World B :=
  fun s => match c s with
           | (inr x, s') => k x s'
           | (inl e, s') => (inl e, s')
           end.

Definition raise {A} (e : exception) : M World A := fun s => (inl e, s).

(** [try: c  except Exception as e: h(e)] *)
Definition try_except {A} (c : M World A) (h : exception -> M World A)
  : M World A :=
  fun s => match c s with
           | (inr x, s') => (inr x, s')
           | (inl e, s') => h e s'
           end.

(** A call into the outside world. *)
Definition call {A} (f : World -> (exception + A) * World) : M World A :=
  fun s => let '(r, w) := f (world s) in (r, mk_state (db s) w (console s)).

(** A query that changes the table and returns a value. *)
Definition query {A} (f : table -> A * table) : M World A :=
  fun s => let '(x, t) := f (db s) in (inr x, mk_state t (world s) (console s)).

(** [print(line)] *)
Definition print (line : string) : M World unit :=
  fun s => (inr tt, mk_state (db s) (world s) (console s ++ [line])).

End Monad.

Notation "x <- c ;; k" := (bind c (fun x => k))
  (at level 61, c at next level, right associativity).
Notation "c ;;; k" := (bind c (fun _ => k))
  (at level 61, right associativity).

(** [for x in l: body(x)] *)
Fixpoint for_each {World A} (l : list A) (body : A -> M World unit)
  : M World unit :=
  match l with
  | [] => ret tt
  | x :: l' => body x ;;; for_each l' body
  end.

(** The filename [download_bytes] derives from the URL:
    [url.split("?")[0].split("/")[-1] or "file"]. *)
Definition filename_of (url : string) : string :=
  or_else (PyStr.last (split "/" (PyStr.first (split "?" url)))) "file".

(** The line printed when a delivery fails. *)
Definition diagnostic (sid uid : Z) (e : exception) : string :=
  "Failed to send schedule " ++ str_of_Z sid ++ " to " ++ str_of_Z uid
  ++ ": " ++ str_of_exception e.

Section WithWorld.

(** [tz = pytz.timezone(DEFAULT_TZ)] *)
Variable tz : timezone.

(** The three calls the program makes into the outside world, each of
    which may raise: [bot.fetch_user(user_id)]; the GET of
    [download_bytes] with [raise_for_status] and [read];
    [user.send(content, file)]. *)
Context {World : Type}.
Variable fetch_user : Z -> World -> (exception + user) * World.
Variable http_get : string -> World -> (exception + string) * World.
Variable user_send :
  user -> string -> option (string * string) -> World -> (exception + unit) * World.

(** [download_bytes(url)] *)
Definition download_bytes (url : string) : M World (string * string) :=
  data <- call (http_get url) ;;
  let filename := filename_of url in
  ret (data, filename).

(** The delivery of one row in [process_due]: resolve the recipient,
    fetch the attachment if there is one ([if attachment_url:]), send. *)
Definition deliver (row : schedule) : M World unit :=
  let message := message row in
  u <- call (fetch_user (user_id row)) ;;
  match attachment_url row with
  | Some (String _ _ as attachment_url) =>
      f <- download_bytes attachment_url ;;
      call (user_send u (opt_or message "") (Some f))
  | _ => call (user_send u (opt_or message "") None)
  end.

(** [await mark_sent(sid, status)] *)
Definition mark_sent_m (sid : Z) (st : status) : M World unit :=
  query (fun t => (tt, mark_sent sid st t)).

(** The body of the loop of [process_due]. *)
Definition process_row (row : schedule) : M World unit :=
  let sid := id row in
  let user_id := user_id row in
  try_except (deliver row ;;; mark_sent_m sid sent)
    (fun e =>
       mark_sent_m sid failed ;;;
       print (diagnostic sid user_id e)).

(** [fetch_due(limit)] at the instant [now]. *)
Definition fetch_due_m (limit now : Z) : M World (list schedule) :=
  fun s => (Store.fetch_due limit now (db s), s).

(** [process_due()], one tick of the poll loop, at the instant [now]. *)
Definition process_due (now : Z) : M World unit :=
  rows <- fetch_due_m 30 now ;;
  for_each rows process_row.

(** [/scheduledm user time message file] at the instant [now]. *)
Definition slash_scheduledm (now : Z) (u : user) (time : string)
    (message : option string) (file : option attachment) : M World reply :=
  match parse_time_12h_to_utc tz now time with
  | inl (ValueError _) => ret InvalidTime
  | inl e => raise e
  | inr run_utc =>
      let attachment_url := option_map url file in
      sid <- query (add_schedule now (u_id u) run_utc message attachment_url) ;;
      ret (Scheduled sid u (pretty_time_local tz run_utc))
  end.

(** [await get_schedule(schedule_id)] *)
Definition get_schedule_m (sid : Z) : M World (option schedule) :=
  fun s => (get_schedule sid (db s), s).

(** [/cancel id] *)
Definition slash_cancel (sid : Z) : M World reply :=
  r <- get_schedule_m sid ;;
  match r with
  | None => ret NotFound
  | Some r =>
      if negb (status_eqb (status_of r) pending)
      then ret (AlreadyStatus (status_of r))
      else query (cancel_schedule sid) ;;; ret (Canceled sid)
  end.

(** The state one row of a tick leaves behind: the row marked [sent]
    after a delivery, or marked [failed] and the diagnostic printed after
    a delivery that raised. *)
Definition after_row (s : state World) (row : schedule) : state World :=
  match deliver row s with
  | (inr _, s1) =>
      mk_state (mark_sent (id row) sent (db s1)) (world s1) (console s1)
  | (inl e, s1) =>
      mk_state (mark_sent (id row) failed (db s1)) (world s1)
               (console s1 ++ [diagnostic (id row) (user_id row) e])
  end.

(** A status a finished delivery leaves. *)
Definition delivered (st : status) : Prop := st = sent \/ st = failed.

(** The status of the first row with id [sid], if there is one. *)
Definition status_in (sid : Z) (s : state World) : option status :=
  option_map status_of (find_row sid (db s)).

(** *** The program as the event loop runs it

    The poll loop and the command handlers are coroutines on one event
    loop: between two [await]s of [process_due] a command may run. The
    rows fetched at the start of a tick and not yet processed are the
    loop variable [rows] of that tick. *)
Record system := mk_system { bot : state World; tick_rows : list schedule }.

Inductive step : system -> system -> Prop :=
| step_scheduledm now u time message file s :
    step s (mk_system (snd (slash_scheduledm now u time message file (bot s)))
                      (tick_rows s))
| step_cancel sid s :
    step s (mk_system (snd (slash_cancel sid (bot s))) (tick_rows s))
| step_tick_fetch now rows s :
    tick_rows s = [] ->
    fetch_due_m 30 now (bot s) = (inr rows, bot s) ->
    step s (mk_system (bot s) rows)
| step_tick_row row rest s :
    tick_rows s = row :: rest ->
    step s (mk_system (snd (process_row row (bot s))) rest).

Inductive steps : system -> system -> Prop :=
| steps_refl s : steps s s
| steps_next s1 s2 s3 : steps s1 s2 -> step s2 s3 -> steps s1 s3.

(** What holds of the rows a tick still has to process: they are distinct
    and none of them has been delivered yet. *)
Definition tick_invariant (s : system) : Prop :=
  fresh_ids (db (bot s)) /\
  NoDup (map id (tick_rows s)) /\
  Forall (fun row => status_in (id row) (bot s) = Some pending \/
                     status_in (id row) (bot s) = Some canceled)
         (tick_rows s).

End WithWorld.

End Bot.

(* ===================================================================== *)
(** ** A small world to run the program in *)
(* ===================================================================== *)

Module Scenario.
Import Datetime Store Bot.

(** The direct messages delivered so far: recipient, text, file name. *)
Definition World : Type := list (Z * string * option string).

(** Every user exists but number 404. *)
Definition fetch_user (uid : Z) (w : World) : (exception + user) * World :=
  if uid =? 404 then (inl (DiscordException "404 Not Found: Unknown User"), w)
  else (inr (mk_user uid "member"), w).

(** Every URL answers with the bytes [DATA] but one that answers 404. *)
Definition http_get (u : string) (w : World) : (exception + string) * World :=
  if String.eqb u "https://cdn.example/missing.png"
  then (inl (ClientError "404, message='Not Found'"), w)
  else (inr "DATA", w).

Definition user_send (u : user) (content : string)
    (file : option (string * string)) (w : World) : (exception + unit) * World :=
  (inr tt, (w ++ [(u_id u, content, option_map snd file)])%list).

(** [Asia/Riyadh], the default zone. *)
Definition riyadh : timezone := static_tz 180.

(** 2024-01-01 10:00:13.000005 in Riyadh. *)
Definition new_year_morning : Z :=
  738886 * US_PER_DAY + 7 * US_PER_HOUR + 13 * US_PER_SECOND + 5.

(** A bot freshly started on an empty table. *)
Definition start : state World := mk_state Store.empty [] [].

(** A cancellation that comes while a tick is under way. *)
Definition step : system -> system -> Prop :=
  Bot.step riyadh fetch_user http_get user_send.

Definition idle : system := mk_system start [].

(** [/scheduledm] for user 7 at 10:01, saying "hi": schedule 1. *)
Definition created : system :=
  mk_system (snd (slash_scheduledm riyadh new_year_morning (mk_user 7 "member")
                    "10:01 AM" (Some "hi") None (bot idle)))
            (tick_rows idle).

Definition the_row : schedule :=
  mk_schedule 1 7 (Some "hi") None
    (738886 * US_PER_DAY + 7 * US_PER_HOUR + 1 * US_PER_MINUTE)
    pending new_year_morning.

(** An hour later a tick starts and fetches the row. *)
Definition fetched : system := mk_system (bot created) [the_row].

(** [/scheduledm] for user 8 at 23:59, saying "later": schedule 2, beside
    schedule 1. *)
Definition two_schedules : state World :=
  snd (slash_scheduledm riyadh new_year_morning (mk_user 8 "member")
         "11:59 PM" (Some "later") None (bot created)).

Definition the_evening_row : schedule :=
  mk_schedule 2 8 (Some "later") None
    (738886 * US_PER_DAY + 20 * US_PER_HOUR + 59 * US_PER_MINUTE)
    pending new_year_morning.

(** [/cancel 1] runs before the tick goes on. *)
Definition canceled_meanwhile : system :=
  mk_system (snd (slash_cancel 1 (bot fetched))) (tick_rows fetched).

(** The tick goes on with the row it holds. *)
Definition tick_done : system :=
  mk_system (snd (process_row fetch_user http_get user_send the_row
                    (bot canceled_meanwhile)))
            [].

End Scenario.

(* ===================================================================== *)
(** ** The path of a URL, in the words of the specification *)
(* ===================================================================== *)

(** The specification derives the filename from the last segment of the
    path of the URL. The definitions below follow those words, with the
    parts of a URL as RFC 3986 names them (scheme, authority, path, query,
    fragment); they are what the filename of [download_bytes] is compared
    with, and no part of the program. *)
Module SpecUrl.
Import PyStr.

Definition one_of (cs : string) (c : ascii) : bool :=
  existsb (Ascii.eqb c) (list_ascii_of_string cs).

(** The text before the first character that [stop] accepts, *)
Fixpoint take_until (stop : ascii -> bool) (s : string) : string :=
  match s with
  | EmptyString => EmptyString
  | String c s' => if stop c then EmptyString else String c (take_until stop s')
  end.

(** and the text from that character on. *)
Fixpoint drop_until (stop : ascii -> bool) (s : string) : string :=
  match s with
  | EmptyString => EmptyString
  | String c s' => if stop c then s else drop_until stop s'
  end.

(** The URL after its scheme and colon, if it has a scheme. *)
Definition spec_without_scheme (url : string) : string :=
  match drop_until (one_of ":/?#") url with
  | String c rest => if Ascii.eqb c ":" then rest else url
  | EmptyString => url
  end.

(** The authority, introduced by two slashes, ends at the next slash,
    question mark or number sign. *)
Definition spec_without_authority (s : string) : string :=
  match s with
  | String c1 (String c2 rest) =>
      if Ascii.eqb c1 "/" && Ascii.eqb c2 "/"
      then drop_until (one_of "/?#") rest else s
  | _ => s
  end.

(** The path ends where the query or the fragment starts. *)
Definition spec_path (url : string) : string :=
  take_until (one_of "?#") (spec_without_authority (spec_without_scheme url)).

(** The last segment of the path. *)
Definition spec_last_path_segment (url : string) : string :=
  last (split "/" (spec_path url)).

(** The filename as the specification derives it. *)
Definition spec_filename (url : string) : string :=
  or_else (spec_last_path_segment url) "file".

End SpecUrl.

(* ===================================================================== *)
(** ** Checks by enumeration *)
(* ===================================================================== *)

Module Enumeration.
Import Strptime Datetime.

(** The time of day [h]:[m], printed with [%I:%M %p], parses back. *)
Definition reads_back (h m : Z) : bool :=
  match strptime_I_M_p (strftime_I_M_p (mk_naive 0 h m 0 0)) with
  | Some t => (t_hour t =? h) && (t_minute t =? m)
  | None => false
  end.

(** [p] holds of 0, 1, ..., [k] - 1. *)
Definition all_below (k : nat) (p : Z -> bool) : bool :=
  forallb (fun i => p (Z.of_nat i)) (seq 0 k).

End Enumeration.

(* ===================================================================== *)
(** ** The other commands: [/send], [/list], [/get] *)
(* ===================================================================== *)

Module Commands.
Import PyStr Strptime Datetime TimeConverter Store Bot.

(** [r["run_at"]] as asyncpg hands it back: an aware datetime in UTC. *)
Definition run_at_datetime (r : schedule) : datetime :=
  mk_datetime (of_us (run_at r)) UTC.

(** Truth value of an optional text ([... if r['attachment_url'] else ...]). *)
Definition has_text (x : option string) : bool :=
  match x with
  | Some (String _ _) => true
  | _ => false
  end.

(** One line of [/list]: id, recipient, local time, status and whether
    there is a file. *)
Record list_line := mk_line
  { l_id : Z; l_user_id : Z; l_time : string; l_status : status; l_file : bool }.

(** What [/send], [/list] and [/get] send with
    [interaction.followup.send(..., ephemeral=True)]. *)
Inductive answer :=
| NoSchedules
| Listing (lines : list list_line)
| NoSuchSchedule
| Details (sid uid : Z) (time : string) (st : status) (message attachment : string)
| SentDM (name : string)
| SendFailed (detail : string).

Definition newline : ascii := ascii_of_nat 10.

(** The text of a line of [/list]; the dash stands for the one of the
    source. *)
Definition render_line (l : list_line) : string :=
  "#" ++ str_of_Z (l_id l) ++ ": to <@" ++ str_of_Z (l_user_id l) ++ "> at "
  ++ l_time l ++ " - " ++ status_text (l_status l) ++ " "
  ++ (if l_file l then "(file)" else "").

(** The texts of the answers, without their leading pictograph. *)
Definition render_answer (a : answer) : string :=
  match a with
  | NoSchedules => "No scheduled DMs."
  | Listing lines =>
      "Scheduled:" ++ String newline (join newline (map render_line lines))
  | NoSuchSchedule => "Not found"
  | Details sid uid t st m a =>
      "#" ++ str_of_Z sid ++ String newline
        ("To: <@" ++ str_of_Z uid ++ ">" ++ String newline
           ("Time: " ++ t ++ String newline
              ("Status: " ++ status_text st ++ String newline
                 ("Message: " ++ m ++ String newline ("Attachment: " ++ a)))))
  | SentDM name => "Sent DM to " ++ name
  | SendFailed detail => "Failed to send DM: " ++ detail
  end.

Section WithWorld.

Variable tz : timezone.
Context {World : Type}.
Variable http_get : string -> World -> (exception + string) * World.
Variable user_send :
  user -> string -> option (string * string) -> World -> (exception + unit) * World.

(** The line [/list] prints for a row. *)
Definition line_of (r : schedule) : list_line :=
  mk_line (id r) (user_id r) (pretty_time_local tz (run_at_datetime r))
          (status_of r) (has_text (attachment_url r)).

(** [/send user message file] *)
Definition slash_send (u : user) (message : option string)
    (file : option attachment) : M World answer :=
  try_except
    (match file with
     | Some file =>
         f <- download_bytes http_get (url file) ;;
         call (user_send u (opt_or message "") (Some f))
     | None => call (user_send u (opt_or message "") None)
     end ;;;
     ret (SentDM (display_name u)))
    (fun e => ret (SendFailed (str_of_exception e))).

(** [/list] *)
Definition slash_list : M World answer :=
  rows <- query (fun t => (get_all_schedules t, t)) ;;
  match rows with
  | [] => ret NoSchedules
  | _ => ret (Listing (map line_of rows))
  end.

(** [/get id] *)
Definition slash_get (sid : Z) : M World answer :=
  r <- get_schedule_m sid ;;
  match r with
  | None => ret NoSuchSchedule
  | Some r =>
      ret (Details (id r) (user_id r)
                   (pretty_time_local tz (run_at_datetime r)) (status_of r)
                   (opt_or (message r) "[no text]")
                   (opt_or (attachment_url r) "[none]"))
  end.

End WithWorld.

(** The time of day [h]:[m], as [pretty_time_local] shows it, is a time
    the converter takes and reads as [h]:[m]. *)
Definition shown_is_taken (h m : Z) : bool :=
  match strptime_I_M_p (strip (strftime_I_M_p (mk_naive 0 h m 0 0))) with
  | Some t => (t_hour t =? h) && (t_minute t =? m)
  | None => false
  end.

End Commands.

(* ===================================================================== *)
(** * Properties *)
(* ===================================================================== *)

(** ** Wall-clock arithmetic *)

Module DatetimeFacts.
Import Datetime.

Ltac units :=
  change US_PER_DAY with 86400000000 in *;
  change US_PER_HOUR with 3600000000 in *;
  change US_PER_MINUTE with 60000000 in *;
  change US_PER_SECOND with 1000000 in *.

Lemma to_us_of_us (w : Z) : to_us (of_us w) = w.
Proof.
  unfold to_us, of_us; cbn [ordinal hour minute second microsecond]; units.
  Z.to_euclidean_division_equations; lia.
Qed.

Lemma wf_of_us (w : Z) : wf_naive (of_us w).
Proof.
  unfold wf_naive, of_us; cbn [ordinal hour minute second microsecond]; units.
  repeat split; Z.to_euclidean_division_equations; lia.
Qed.

Lemma of_us_to_us (n : naive) : wf_naive n -> of_us (to_us n) = n.
Proof.
  destruct n as [d h m s u]; unfold wf_naive, to_us, of_us;
    cbn [ordinal hour minute second microsecond]; units.
  intros (Hh & Hm & Hs & Hu).
  f_equal; Z.to_euclidean_division_equations; lia.
Qed.

End DatetimeFacts.

(** ** The parser of [%I:%M %p] against the format in words *)

Module StrptimeFacts.
Import PyStr Strptime TimeFormat.

Lemma append_nil_r (s : string) : s ++ "" = s.
Proof. induction s as [| c s IH]; cbn; [| rewrite IH]; reflexivity. Qed.

Lemma append_assoc (a b c : string) : (a ++ b) ++ c = a ++ b ++ c.
Proof. induction a as [| x a IH]; cbn; [| rewrite IH]; reflexivity. Qed.

Lemma in_class_bounds lo hi c :
  in_class lo hi c = true ->
  (N_of_ascii lo <= N_of_ascii c <= N_of_ascii hi)%N.
Proof.
  unfold in_class; intros H; apply andb_true_iff in H as [H1 H2].
  apply N.leb_le in H1, H2; lia.
Qed.

Lemma isdigit_bounds c : isdigit c = true -> 0 <= digit_value c <= 9.
Proof.
  unfold isdigit, digit_value; intros H; apply andb_true_iff in H as [H1 H2].
  apply Z.leb_le in H1, H2; lia.
Qed.

Lemma in_class_digit lo hi c :
  in_class lo hi c = true ->
  Z.of_N (N_of_ascii lo) - 48 <= digit_value c <= Z.of_N (N_of_ascii hi) - 48.
Proof. intros H%in_class_bounds; unfold digit_value; lia. Qed.

Lemma isspace_not_digit c : isspace c = true -> isdigit c = false.
Proof.
  unfold isspace, isdigit; intros H.
  apply andb_false_iff.
  destruct (48 <=? Z.of_N (N_of_ascii c)) eqn:E1; [right | now left].
  destruct (Z.of_N (N_of_ascii c) <=? 57) eqn:E2; [| reflexivity].
  apply Z.leb_le in E1, E2.
  repeat (apply orb_true_iff in H as [H | H]);
    try (apply andb_true_iff in H as [Ha Hb]; apply Z.leb_le in Ha, Hb; lia);
    apply Z.eqb_eq in H; lia.
Qed.

Lemma int_of_1 c : int_of (String c "") = digit_value c.
Proof. unfold int_of; cbn [list_ascii_of_string fold_left]; ring. Qed.

Lemma int_of_2 c1 c2 :
  int_of (String c1 (String c2 "")) = 10 * digit_value c1 + digit_value c2.
Proof. unfold int_of; cbn [list_ascii_of_string fold_left]; ring. Qed.

Lemma hour_numeral_range H :
  hour_numeral H = true -> 1 <= int_of H <= 12.
Proof.
  destruct H as [| c1 [| c2 [| ? ?]]]; cbn [hour_numeral]; try discriminate.
  - intros Hc%in_class_digit. rewrite int_of_1.
    change (N_of_ascii "1") with 49%N in Hc; change (N_of_ascii "9") with 57%N in Hc.
    lia.
  - intros Hc. rewrite int_of_2.
    apply orb_true_iff in Hc as [Hc | Hc];
      apply andb_true_iff in Hc as [H1 H2];
      apply Ascii.eqb_eq in H1; subst c1;
      apply in_class_digit in H2.
    + change (digit_value "0") with 0.
      change (N_of_ascii "1") with 49%N in H2; change (N_of_ascii "9") with 57%N in H2.
      lia.
    + change (digit_value "1") with 1.
      change (N_of_ascii "0") with 48%N in H2; change (N_of_ascii "2") with 50%N in H2.
      lia.
Qed.

Lemma minute_numeral_range M :
  minute_one_or_two_digits M = true -> 0 <= int_of M <= 59.
Proof.
  destruct M as [| c1 [| c2 [| ? ?]]];
    cbn [minute_one_or_two_digits minute_two_digits]; try discriminate.
  - intros Hc%isdigit_bounds. rewrite int_of_1. lia.
  - intros Hc. apply andb_true_iff in Hc as [H1 H2]. rewrite int_of_2.
    apply in_class_digit in H1. apply isdigit_bounds in H2.
    change (N_of_ascii "0") with 48%N in H1; change (N_of_ascii "5") with 53%N in H1.
    lia.
Qed.

Lemma hour24_range h p : 1 <= h <= 12 -> 0 <= hour24 h p < 24.
Proof.
  intros Hh; unfold hour24; destruct p; destruct (Z.eqb_spec h 12); lia.
Qed.

(** *** What a successful match looks like *)

Lemma re_p_inv I M s g :
  re_p I M s = Some g ->
  exists P, s = P ++ g_rest g /\ marker P = true /\
            g = mk_groups I M (meridiem_of P) (g_rest g).
Proof.
  destruct s as [| a [| m rest]]; cbn [re_p]; try discriminate.
  destruct (Ascii.eqb (lower m) "m") eqn:Em; [| discriminate].
  destruct (Ascii.eqb (lower a) "a") eqn:Ea.
  - intros [= <-]. exists (String a (String m "")); cbn. rewrite Ea, Em. auto.
  - destruct (Ascii.eqb (lower a) "p") eqn:Ep; [| discriminate].
    intros [= <-]. exists (String a (String m "")); cbn. rewrite Ea, Ep, Em. auto.
Qed.

Lemma re_spaces_inv I M s g :
  re_spaces I M s = Some g ->
  exists ws P, s = ws ++ P ++ g_rest g /\ ws <> "" /\ all_space ws = true /\
               marker P = true /\ g = mk_groups I M (meridiem_of P) (g_rest g).
Proof.
  induction s as [| c s IH]; cbn [re_spaces]; [discriminate |].
  destruct (isspace c) eqn:Ec; [| discriminate].
  destruct (re_spaces I M s) as [g' |] eqn:Es; cbn [orelse].
  - intros [= ->]. destruct (IH eq_refl) as (ws & P & -> & _ & Hws & HP & Hg).
    exists (String c ws), P. cbn. rewrite Ec. repeat split; auto. discriminate.
  - intros (P & -> & HP & Hg)%re_p_inv.
    exists (String c ""), P. cbn. rewrite Ec. repeat split; auto. discriminate.
Qed.

Lemma re_M_inv I s g :
  re_M I s = Some g ->
  exists M ws P, s = M ++ ws ++ P ++ g_rest g /\
    minute_one_or_two_digits M = true /\ ws <> "" /\ all_space ws = true /\
    marker P = true /\ g = mk_groups I M (meridiem_of P) (g_rest g).
Proof.
  destruct s as [| c1 s1]; cbn [re_M]; [discriminate |].
  match goal with |- orelse ?x ?y = _ -> _ => destruct x as [g' |] eqn:E1 end;
    cbn [orelse].
  - intros [= ->]. destruct s1 as [| c2 s2]; [discriminate |].
    destruct (in_class "0" "5" c1 && isdigit c2) eqn:Ec; [| discriminate].
    apply re_spaces_inv in E1 as (ws & P & -> & Hne & Hws & HP & Hg).
    exists (String c1 (String c2 "")), ws, P. cbn [minute_one_or_two_digits minute_two_digits].
    repeat split; auto.
  - destruct (isdigit c1) eqn:Ec; [| discriminate].
    intros (ws & P & -> & Hne & Hws & HP & Hg)%re_spaces_inv.
    exists (String c1 ""), ws, P. cbn [minute_one_or_two_digits].
    repeat split; auto.
Qed.

Lemma re_colon_inv I s g :
  re_colon I s = Some g ->
  exists M ws P, s = ":" ++ M ++ ws ++ P ++ g_rest g /\
    minute_one_or_two_digits M = true /\ ws <> "" /\ all_space ws = true /\
    marker P = true /\ g = mk_groups I M (meridiem_of P) (g_rest g).
Proof.
  destruct s as [| c s]; cbn [re_colon]; [discriminate |].
  destruct (Ascii.eqb_spec c ":") as [-> |]; [| discriminate].
  intros (M & ws & P & -> & H)%re_M_inv. exists M, ws, P. split; auto.
Qed.

Lemma re_match_inv s g :
  re_match s = Some g ->
  exists H M ws P, s = H ++ ":" ++ M ++ ws ++ P ++ g_rest g /\
    hour_numeral H = true /\
    minute_one_or_two_digits M = true /\ ws <> "" /\ all_space ws = true /\
    marker P = true /\ g = mk_groups H M (meridiem_of P) (g_rest g).
Proof.
  destruct s as [| c1 s1]; cbn [re_match]; [discriminate |].
  match goal with |- orelse ?x ?y = _ -> _ => destruct x as [g' |] eqn:E1 end;
    cbn [orelse].
  - intros [= ->]. destruct s1 as [| c2 s2]; [discriminate |].
    revert E1.
    match goal with |- orelse ?x ?y = _ -> _ => destruct x as [g' |] eqn:E2 end;
      cbn [orelse].
    + intros [= ->].
      destruct (Ascii.eqb c1 "1" && in_class "0" "2" c2) eqn:Ec; [| discriminate].
      apply re_colon_inv in E2 as (M & ws & P & -> & H).
      exists (String c1 (String c2 "")), M, ws, P. cbn [hour_numeral].
      rewrite Ec, orb_true_r. split; auto.
    + destruct (Ascii.eqb c1 "0" && in_class "1" "9" c2) eqn:Ec; [| discriminate].
      intros (M & ws & P & -> & H)%re_colon_inv.
      exists (String c1 (String c2 "")), M, ws, P. cbn [hour_numeral].
      rewrite Ec. split; auto.
  - destruct (in_class "1" "9" c1) eqn:Ec; [| discriminate].
    intros (M & ws & P & -> & H)%re_colon_inv.
    exists (String c1 ""), M, ws, P. cbn [hour_numeral]. split; auto.
Qed.

(** The parser accepts only strings of the lenient format, and reads the
    hour and the minute off them. *)
Lemma strptime_sound s t :
  strptime_I_M_p s = Some t ->
  exists H M ws P, s = H ++ ":" ++ M ++ ws ++ P /\
    hour_numeral H = true /\
    minute_one_or_two_digits M = true /\ ws <> "" /\ all_space ws = true /\
    marker P = true /\
    t = mk_time (hour24 (int_of H) (meridiem_of P)) (int_of M).
Proof.
  unfold strptime_I_M_p.
  destruct (re_match s) as [g |] eqn:E; [| discriminate].
  destruct (g_rest g) eqn:Er; [| discriminate].
  intros [= <-].
  apply re_match_inv in E as (H & M & ws & P & -> & HH & HM & Hne & Hws & HP & Hg).
  rewrite Er in *. rewrite Hg; cbn [g_I g_M g_p].
  exists H, M, ws, P. rewrite append_nil_r. repeat split; auto.
Qed.

Lemma strptime_range s t :
  strptime_I_M_p s = Some t ->
  0 <= t_hour t < 24 /\ 0 <= t_minute t < 60.
Proof.
  intros (H & M & ws & P & _ & HH & HM & _ & _ & _ & ->)%strptime_sound.
  cbn. split.
  - apply hour24_range, hour_numeral_range, HH.
  - apply minute_numeral_range in HM. lia.
Qed.

(** *** Every string of the lenient format is accepted *)

Lemma marker_first_not_space P :
  marker P = true ->
  exists a m, P = String a (String m "") /\ isspace a = false.
Proof.
  destruct P as [| a [| m [| ? ?]]]; cbn [marker]; try discriminate.
  intros H. exists a, m. split; [reflexivity |].
  apply andb_true_iff in H as [H _].
  destruct a as [[] [] [] [] [] [] [] []]; try reflexivity; discriminate H.
Qed.

Lemma re_p_complete I M P rest :
  marker P = true ->
  re_p I M (P ++ rest) = Some (mk_groups I M (meridiem_of P) rest).
Proof.
  destruct P as [| a [| m [| ? ?]]]; cbn [marker]; try discriminate.
  intros H. apply andb_true_iff in H as [Ha Hm].
  cbn [append re_p meridiem_of]. rewrite Hm.
  destruct (Ascii.eqb (lower a) "a"); [reflexivity |].
  cbn in Ha. rewrite Ha. reflexivity.
Qed.

Lemma re_spaces_complete I M ws P rest :
  ws <> "" -> all_space ws = true -> marker P = true ->
  re_spaces I M (ws ++ P ++ rest) = Some (mk_groups I M (meridiem_of P) rest).
Proof.
  intros Hne Hws HP. induction ws as [| c ws IH]; [congruence |].
  cbn [all_space] in Hws. apply andb_true_iff in Hws as [Hc Hws].
  cbn [append re_spaces]. rewrite Hc.
  destruct ws as [| c' ws'].
  - cbn [append].
    destruct (marker_first_not_space P HP) as (a & m & -> & Ha).
    cbn [append re_spaces]. rewrite Ha. cbn [orelse].
    apply (re_p_complete I M (String a (String m "")) rest HP).
  - rewrite IH by (auto; discriminate). reflexivity.
Qed.

Lemma re_M_complete I M ws P rest :
  minute_one_or_two_digits M = true ->
  ws <> "" -> all_space ws = true -> marker P = true ->
  re_M I (M ++ ws ++ P ++ rest) = Some (mk_groups I M (meridiem_of P) rest).
Proof.
  intros HM Hne Hws HP.
  pose proof (re_spaces_complete I M ws P rest Hne Hws HP) as Hsp.
  destruct M as [| c1 [| c2 [| ? ?]]];
    cbn [minute_one_or_two_digits minute_two_digits] in HM; try discriminate.
  - destruct ws as [| w ws']; [congruence |].
    cbn [all_space] in Hws. apply andb_true_iff in Hws as [Hw _].
    cbn [append re_M] in Hsp |- *.
    rewrite (isspace_not_digit w Hw), andb_false_r. cbn [orelse].
    rewrite HM. exact Hsp.
  - cbn [append re_M] in Hsp |- *.
    destruct (ws ++ P ++ rest) as [| x y] eqn:E; [discriminate Hsp |].
    rewrite HM, Hsp. reflexivity.
Qed.

Lemma re_match_complete H M ws P rest :
  hour_numeral H = true -> minute_one_or_two_digits M = true ->
  ws <> "" -> all_space ws = true -> marker P = true ->
  re_match (H ++ ":" ++ M ++ ws ++ P ++ rest)
  = Some (mk_groups H M (meridiem_of P) rest).
Proof.
  intros HH HM Hne Hws HP.
  pose proof (fun I => re_M_complete I M ws P rest HM Hne Hws HP) as HMc.
  destruct H as [| c1 [| c2 [| ? ?]]]; cbn [hour_numeral] in HH; try discriminate.
  - cbn [append re_match re_colon].
    replace (in_class "0" "2" ":") with false by reflexivity.
    replace (in_class "1" "9" ":") with false by reflexivity.
    rewrite !andb_false_r. cbn [orelse]. rewrite HH.
    replace (Ascii.eqb ":" ":") with true by reflexivity. apply HMc.
  - cbn [append re_match].
    apply orb_true_iff in HH as [HH | HH].
    + pose proof HH as HH'. apply andb_true_iff in HH' as [H1 _].
      apply Ascii.eqb_eq in H1; subst c1.
      replace (Ascii.eqb "0" "1") with false by reflexivity.
      cbn [andb orelse]. cbn [andb] in HH. rewrite HH.
      cbn [re_colon]. replace (Ascii.eqb ":" ":") with true by reflexivity.
      rewrite HMc. reflexivity.
    + rewrite HH. cbn [re_colon].
      replace (Ascii.eqb ":" ":") with true by reflexivity.
      rewrite HMc. reflexivity.
Qed.

Lemma strptime_complete H M ws P :
  hour_numeral H = true -> minute_one_or_two_digits M = true ->
  ws <> "" -> all_space ws = true -> marker P = true ->
  strptime_I_M_p (H ++ ":" ++ M ++ ws ++ P)
  = Some (mk_time (hour24 (int_of H) (meridiem_of P)) (int_of M)).
Proof.
  intros HH HM Hne Hws HP. unfold strptime_I_M_p.
  rewrite <- (append_nil_r P) at 1.
  rewrite (re_match_complete H M ws P "" HH HM Hne Hws HP). reflexivity.
Qed.

(** The parser accepts exactly the lenient format. *)
Lemma lenient_12h_iff s :
  lenient_12h s <-> strptime_I_M_p (strip s) <> None.
Proof.
  split.
  - intros (H & M & ws & P & -> & HH & HM & Hne & Hws & HP).
    rewrite strptime_complete by assumption. discriminate.
  - destruct (strptime_I_M_p (strip s)) as [t |] eqn:E; [| congruence].
    intros _.
    apply strptime_sound in E as (H & M & ws & P & E & HH & HM & Hne & Hws & HP & _).
    exists H, M, ws, P. repeat split; assumption.
Qed.

Lemma strict_is_lenient s : strict_12h s -> lenient_12h s.
Proof.
  intros (H & M & ws & P & E & HH & HM & Hrest).
  exists H, M, ws, P. repeat split; try tauto.
  destruct M as [| c1 [| c2 [| ? ?]]]; cbn in HM |- *; try discriminate; exact HM.
Qed.

End StrptimeFacts.

(** ** The time converter *)

Module TimeConverterFacts.
Import PyStr Strptime Datetime TimeConverter Enumeration DatetimeFacts StrptimeFacts.

Lemma instant_astimezone_utc dt : instant (astimezone_utc dt) = instant dt.
Proof.
  unfold astimezone_utc, instant at 1; cbn [wall tz_of UTC utcoffset].
  rewrite to_us_of_us. lia.
Qed.

Lemma instant_at_instant tz u : instant (at_instant tz u) = u.
Proof.
  unfold at_instant, instant; cbn [wall tz_of]. rewrite to_us_of_us. lia.
Qed.

Lemma instant_add dt delta : instant (add dt delta) = instant dt + delta.
Proof.
  unfold add, instant; cbn [wall tz_of]. rewrite to_us_of_us. lia.
Qed.

Lemma of_us_add_days (n : naive) (k : Z) :
  wf_naive n ->
  of_us (to_us n + timedelta_days k)
  = mk_naive (ordinal n + k) (hour n) (minute n) (second n) (microsecond n).
Proof.
  intros Hwf.
  rewrite <- (of_us_to_us (mk_naive (ordinal n + k) _ _ _ _)) by exact Hwf.
  f_equal. unfold to_us, timedelta_days; cbn [ordinal hour minute second microsecond].
  ring.
Qed.

(** The UTC reading of a wall-clock time with zero seconds, shifted by
    whole days and a whole-minute offset, has zero seconds. *)
Lemma whole_minute_instant (d h m k o : Z) :
  let n := of_us (to_us (mk_naive d h m 0 0) + timedelta_days k - o * US_PER_MINUTE) in
  second n = 0 /\ microsecond n = 0 /\
  (to_us (mk_naive d h m 0 0) + timedelta_days k - o * US_PER_MINUTE)
    mod US_PER_MINUTE = 0.
Proof.
  cbv zeta. unfold to_us, timedelta_days, of_us;
    cbn [ordinal hour minute second microsecond]; units.
  set (X := d * 86400000000 + h * 3600000000 + m * 60000000 + 0 * 1000000 + 0
            + k * 86400000000 - o * 60000000).
  assert (HX : X = (d * 1440 + h * 60 + m + k * 1440 - o) * 60000000)
    by (unfold X; ring).
  generalize dependent (d * 1440 + h * 60 + m + k * 1440 - o). intros q HX.
  clearbody X. subst X.
  repeat split; Z.to_euclidean_division_equations; lia.
Qed.

Section StaticZone.

(** A zone with the constant offset [off], in minutes. *)
Variable off : Z.

Lemma wall_astimezone_static dt :
  wall (astimezone (static_tz off) dt) = of_us (instant dt + off * US_PER_MINUTE).
Proof. reflexivity. Qed.

(** In a zone of constant offset the converter returns the next occurrence
    of the wall-clock time it was given: the same hour and minute, strictly
    after now, today if the time of day is still ahead and tomorrow
    otherwise. *)
Lemma parse_time_static_next_occurrence (now_utc : Z) (s : string) (t : time) :
  strptime_I_M_p (strip s) = Some t ->
  exists run_utc,
    parse_time_12h_to_utc (static_tz off) now_utc s = inr run_utc /\
    tz_of run_utc = UTC /\
    now_utc < instant run_utc /\
    let now_local := wall (at_instant (static_tz off) now_utc) in
    wall (astimezone (static_tz off) run_utc)
    = mk_naive (if time_of_day now_local
                     <? t_hour t * US_PER_HOUR + t_minute t * US_PER_MINUTE
                then ordinal now_local else ordinal now_local + 1)
               (t_hour t) (t_minute t) 0 0.
Proof.
  intros Hs. pose proof (strptime_range _ _ Hs) as [Hh Hm].
  unfold parse_time_12h_to_utc. rewrite Hs.
  set (now_local := at_instant (static_tz off) now_utc).
  set (n := mk_naive (ordinal (wall now_local)) (t_hour t) (t_minute t) 0 0).
  assert (Hwf : wf_naive n) by (unfold wf_naive, n; cbn; units; lia).
  assert (Hnow : to_us (wall now_local) = now_utc + off * US_PER_MINUTE)
    by (unfold now_local, at_instant; cbn; apply to_us_of_us).
  assert (Hwfnow : wf_naive (wall now_local)) by apply wf_of_us.
  assert (Hin : instant (localize (static_tz off) n) = to_us n - off * US_PER_MINUTE)
    by reflexivity.
  assert (Hsplit : to_us (wall now_local)
                   = ordinal (wall now_local) * US_PER_DAY + time_of_day (wall now_local))
    by (unfold to_us, time_of_day; ring).
  assert (Hn : to_us n = ordinal (wall now_local) * US_PER_DAY
                         + (t_hour t * US_PER_HOUR + t_minute t * US_PER_MINUTE))
    by (unfold to_us, n; cbn [ordinal hour minute second microsecond]; ring).
  assert (Htod : 0 <= time_of_day (wall now_local) < US_PER_DAY).
  { destruct Hwfnow as (H1 & H2 & H3 & H4). unfold time_of_day. units. lia. }
  assert (Hnowi : instant now_local = now_utc) by apply instant_at_instant.
  cbv zeta. unfold le. rewrite Hnowi, Hin.
  destruct (Z.leb_spec (to_us n - off * US_PER_MINUTE) now_utc) as [Hle | Hgt];
    (eexists; split; [reflexivity |]; split; [reflexivity |]);
    rewrite wall_astimezone_static, !instant_astimezone_utc.
  - rewrite instant_add, Hin.
    replace (to_us n - off * US_PER_MINUTE + timedelta_days 1 + off * US_PER_MINUTE)
      with (to_us n + timedelta_days 1) by ring.
    rewrite of_us_add_days by exact Hwf.
    destruct (Z.ltb_spec (time_of_day (wall now_local))
                (t_hour t * US_PER_HOUR + t_minute t * US_PER_MINUTE)) as [Hlt | Hge].
    + exfalso. lia.
    + split; [| reflexivity]. unfold timedelta_days. units. lia.
  - rewrite Hin.
    replace (to_us n - off * US_PER_MINUTE + off * US_PER_MINUTE)
      with (to_us n) by ring.
    rewrite of_us_to_us by exact Hwf.
    destruct (Z.ltb_spec (time_of_day (wall now_local))
                (t_hour t * US_PER_HOUR + t_minute t * US_PER_MINUTE)) as [Hlt | Hge].
    + split; [lia | reflexivity].
    + exfalso. lia.
Qed.

End StaticZone.

(** *** Rendering and reading back a time of day *)

Lemma all_below_spec k p x :
  all_below k p = true -> 0 <= x < Z.of_nat k -> p x = true.
Proof.
  unfold all_below. rewrite forallb_forall. intros H Hx.
  specialize (H (Z.to_nat x)). rewrite Z2Nat.id in H by lia.
  apply H, in_seq. lia.
Qed.

Lemma reads_back_all :
  all_below 24 (fun h => all_below 60 (reads_back h)) = true.
Proof. vm_compute. reflexivity. Qed.

(** [%I:%M %p] printed from a wall clock parses back to its hour and
    minute. *)
Lemma strptime_strftime (n : naive) :
  wf_naive n ->
  strptime_I_M_p (strftime_I_M_p n) = Some (mk_time (hour n) (minute n)).
Proof.
  intros (Hh & Hm & _).
  pose proof (all_below_spec _ _ (hour n) reads_back_all Hh) as H1.
  pose proof (all_below_spec _ _ (minute n) H1 Hm) as H2.
  unfold reads_back in H2.
  change (strftime_I_M_p (mk_naive 0 (hour n) (minute n) 0 0))
    with (strftime_I_M_p n) in H2.
  destruct (strptime_I_M_p (strftime_I_M_p n)) as [[h m] |]; [| discriminate].
  cbn [t_hour t_minute] in H2. apply andb_true_iff in H2 as [Ea Eb].
  apply Z.eqb_eq in Ea, Eb. subst. reflexivity.
Qed.

(** In a zone of constant offset, the local display of the instant the
    converter returns shows the hour and minute that were asked for. *)
Lemma round_trip_static (off now_utc : Z) (s : string) (t : time) :
  strptime_I_M_p (strip s) = Some t ->
  exists run_utc date,
    parse_time_12h_to_utc (static_tz off) now_utc s = inr run_utc /\
    pretty_time_local (static_tz off) run_utc
    = date ++ " " ++ strftime_I_M_p (mk_naive 0 (t_hour t) (t_minute t) 0 0) /\
    strptime_I_M_p (strftime_I_M_p (mk_naive 0 (t_hour t) (t_minute t) 0 0))
    = Some t.
Proof.
  intros Hs. pose proof (strptime_range _ _ Hs) as [Hh Hm].
  destruct (parse_time_static_next_occurrence off now_utc s t Hs)
    as (run_utc & Hp & _ & _ & Hw).
  cbv zeta in Hw. exists run_utc. eexists. split; [exact Hp |]. split.
  - unfold pretty_time_local, strftime. rewrite Hw. reflexivity.
  - rewrite strptime_strftime by (unfold wf_naive; cbn; units; lia).
    destruct t; reflexivity.
Qed.

(** C10. Whatever the zone and the current instant, a time that parses
    yields a UTC datetime with zero seconds and zero microseconds, so the
    stored [run_at] is a whole number of minutes; the parser raises only
    when [strptime] does. *)
Theorem parse_time_whole_minute (tz : timezone) (now_utc : Z) (s : string) :
  match parse_time_12h_to_utc tz now_utc s with
  | inr run_utc =>
      strptime_I_M_p (strip s) <> None /\
      tz_of run_utc = UTC /\
      second (wall run_utc) = 0 /\ microsecond (wall run_utc) = 0 /\
      instant run_utc mod US_PER_MINUTE = 0
  | inl _ => strptime_I_M_p (strip s) = None
  end.
Proof.
  unfold parse_time_12h_to_utc.
  destruct (strptime_I_M_p (strip s)) as [t |]; [| reflexivity].
  split; [discriminate |]. split; [reflexivity |].
  rewrite instant_astimezone_utc.
  set (n := mk_naive _ (t_hour t) (t_minute t) 0 0).
  set (o := utcoffset (localize_info tz n)).
  assert (Hin : instant (localize tz n) = to_us n + timedelta_days 0 - o * US_PER_MINUTE)
    by (unfold instant, localize, timedelta_days; cbn [wall tz_of]; fold o; ring).
  destruct (le (localize tz n) (at_instant tz now_utc)).
  - unfold astimezone_utc; cbn [wall]. rewrite instant_add, Hin.
    replace (to_us n + timedelta_days 0 - o * US_PER_MINUTE + timedelta_days 1)
      with (to_us n + timedelta_days 1 - o * US_PER_MINUTE)
      by (unfold timedelta_days; ring).
    apply whole_minute_instant.
  - unfold astimezone_utc; cbn [wall]. rewrite Hin.
    apply whole_minute_instant.
Qed.

(** C1, at a change to daylight saving time. In [America/New_York] on
    2024-03-09 at 10:00 EST, the time "09:00 AM" has passed, so the
    converter answers for the next day; it keeps the offset of today, and
    the instant it returns reads 10:00 on the New York wall clock, not
    09:00. *)
Theorem parse_time_dst_wall_clock_differs :
  let now_utc := 738954 * US_PER_DAY + 15 * US_PER_HOUR in
  strptime_I_M_p (strip "09:00 AM") = Some (mk_time 9 0) /\
  wall (at_instant new_york_spring_2024 now_utc) = mk_naive 738954 10 0 0 0 /\
  exists run_utc,
    parse_time_12h_to_utc new_york_spring_2024 now_utc "09:00 AM" = inr run_utc /\
    wall (astimezone new_york_spring_2024 run_utc) = mk_naive 738955 10 0 0 0.
Proof.
  cbv zeta. split; [reflexivity |]. split; [reflexivity |].
  eexists; split; reflexivity.
Qed.

(** The same at the change back. In [America/New_York] on 2024-11-03 at
    23:59 EST, the converter asked for "12:00 AM" returns 2024-11-04 04:00
    UTC, which is 59 minutes before the current instant. *)
Lemma parse_time_dst_result_in_the_past :
  let now_utc := 739194 * US_PER_DAY + 4 * US_PER_HOUR + 59 * US_PER_MINUTE in
  wall (at_instant new_york_autumn_2024 now_utc) = mk_naive 739193 23 59 0 0 /\
  exists run_utc,
    parse_time_12h_to_utc new_york_autumn_2024 now_utc "12:00 AM" = inr run_utc /\
    wall run_utc = mk_naive 739194 4 0 0 0 /\
    instant run_utc < now_utc.
Proof.
  cbv zeta. split; [reflexivity |].
  eexists; split; [reflexivity |]. split; reflexivity.
Qed.

(** C6, at a change to daylight saving time. With the same zone and
    instant, a schedule created for "09:00 AM" is displayed back as
    10:00 AM. *)
Theorem round_trip_dst_shows_other_hour :
  let now_utc := 738954 * US_PER_DAY + 15 * US_PER_HOUR in
  exists run_utc,
    parse_time_12h_to_utc new_york_spring_2024 now_utc "09:00 AM" = inr run_utc /\
    pretty_time_local new_york_spring_2024 run_utc = "2024-03-10 10:00 AM".
Proof.
  cbv zeta. eexists; split; reflexivity.
Qed.

End TimeConverterFacts.

(** ** The store *)

Module StoreFacts.
Import Store.

Local Open Scope list_scope.

Lemma status_eqb_eq a b : status_eqb a b = true <-> a = b.
Proof. destruct a, b; cbn; split; (reflexivity || discriminate). Qed.

Lemma insert_by_run_at_perm x l : Permutation (insert_by_run_at x l) (x :: l).
Proof.
  induction l as [| y l IH]; cbn; [reflexivity |].
  destruct (run_at x <=? run_at y); [reflexivity |].
  rewrite IH. apply perm_swap.
Qed.

Lemma order_by_run_at_perm l : Permutation (order_by_run_at l) l.
Proof.
  induction l as [| x l IH]; cbn; [constructor |].
  rewrite insert_by_run_at_perm. now constructor.
Qed.

Lemma insert_by_run_at_sorted x l :
  StronglySorted by_run_at l -> StronglySorted by_run_at (insert_by_run_at x l).
Proof.
  induction 1 as [| y l Hs IH Hy]; cbn; [repeat constructor |].
  destruct (Z.leb_spec (run_at x) (run_at y)) as [Hle | Hgt].
  - constructor; [now constructor |].
    constructor; [exact Hle |].
    eapply Forall_impl; [| exact Hy]. unfold by_run_at; intros; lia.
  - constructor; [exact IH |].
    rewrite (insert_by_run_at_perm x l). constructor; [unfold by_run_at; lia | exact Hy].
Qed.

Lemma order_by_run_at_sorted l : StronglySorted by_run_at (order_by_run_at l).
Proof.
  induction l as [| x l IH]; cbn; [constructor |].
  now apply insert_by_run_at_sorted.
Qed.

(** The two halves of a sorted list are sorted, and the first lies below
    the second. *)
Lemma sorted_app_inv (l1 l2 : list schedule) :
  StronglySorted by_run_at (l1 ++ l2) ->
  StronglySorted by_run_at l1 /\
  Forall (fun a => Forall (fun b => run_at a <= run_at b) l2) l1.
Proof.
  induction l1 as [| x l1 IH]; cbn; intros H; [split; constructor |].
  inversion H as [| ? ? Hs Hx]; subst.
  destruct (IH Hs) as [H1 H2].
  apply Forall_app in Hx as [Hx1 Hx2].
  split; constructor; assumption.
Qed.

(** What [fetch_due] returns comes from the table. *)
Lemma fetch_due_rows_in_table (limit now : Z) (t : table) (rs : list schedule) :
  fetch_due limit now t = inr rs -> Forall (fun r => In r (rows t)) rs.
Proof.
  unfold fetch_due. destruct (limit <? 0); [discriminate |]. intros [= <-].
  apply Forall_forall. intros r Hr.
  set (due := filter (is_due now) (rows t)) in *.
  assert (Hin : In r due).
  { apply (Permutation_in r (order_by_run_at_perm due)).
    rewrite <- (firstn_skipn (Z.to_nat limit) (order_by_run_at due)).
    apply in_or_app; now left. }
  now apply filter_In in Hin.
Qed.

(** C5. [fetch_due] raises only for a negative limit. Otherwise it returns
    at most [limit] rows, all pending and due, in ascending order of
    [run_at]; they are the earliest due rows: together with the rows left
    out they make up the due rows of the table, none left out is earlier
    than one returned, and rows are left out only when [limit] rows were
    returned. *)
Theorem fetch_due_spec (limit now : Z) (t : table) :
  match fetch_due limit now t with
  | inr rs =>
      Z.of_nat (List.length rs) <= limit /\
      Forall (fun r => status_of r = pending /\ run_at r <= now) rs /\
      StronglySorted by_run_at rs /\
      exists rest,
        Permutation (rs ++ rest) (filter (is_due now) (rows t)) /\
        Forall (fun a => Forall (fun b => run_at a <= run_at b) rest) rs /\
        (rest = [] \/ Z.of_nat (List.length rs) = limit)
  | inl _ => limit < 0
  end.
Proof.
  unfold fetch_due. destruct (Z.ltb_spec limit 0) as [Hneg | Hpos]; [exact Hneg |].
  set (due := filter (is_due now) (rows t)).
  set (sorted := order_by_run_at due).
  set (k := Z.to_nat limit).
  pose proof (firstn_skipn k sorted) as Hsplit.
  pose proof (order_by_run_at_sorted due) as Hsorted. fold sorted in Hsorted.
  rewrite <- Hsplit in Hsorted. apply sorted_app_inv in Hsorted as [Hs1 Hs2].
  split; [rewrite length_firstn; lia |].
  split.
  - apply Forall_forall. intros r Hr.
    assert (Hin : In r due).
    { apply (Permutation_in r (order_by_run_at_perm due)).
      fold sorted. rewrite <- Hsplit. apply in_or_app; now left. }
    apply filter_In in Hin as [_ Hd]. unfold is_due in Hd.
    apply andb_true_iff in Hd as [Hp Hr']. split.
    + now apply status_eqb_eq.
    + now apply Z.leb_le.
  - split; [exact Hs1 |].
    exists (skipn k sorted). split; [| split].
    + rewrite Hsplit. apply order_by_run_at_perm.
    + exact Hs2.
    + destruct (Nat.le_gt_cases (List.length sorted) k) as [Hall | Hsome].
      * left. now apply skipn_all2.
      * right. rewrite length_firstn. lia.
Qed.

(** Three due rows entered out of order come back earliest first. *)
Lemma fetch_due_earliest_first (T1 T2 T3 now : Z) (r1 r2 r3 : schedule) :
  T1 < T2 < T3 -> T3 <= now ->
  run_at r1 = T1 -> run_at r2 = T2 -> run_at r3 = T3 ->
  status_of r1 = pending -> status_of r2 = pending -> status_of r3 = pending ->
  forall n, fetch_due 30 now (mk_table [r3; r1; r2] n) = inr [r1; r2; r3].
Proof.
  intros HT Hnow E1 E2 E3 P1 P2 P3 n. subst T1 T2 T3.
  unfold fetch_due. cbn [Z.ltb Z.compare rows filter]. unfold is_due.
  rewrite P1, P2, P3. cbn [status_eqb andb].
  rewrite !(proj2 (Z.leb_le _ now)) by lia.
  cbn [order_by_run_at fold_right insert_by_run_at].
  rewrite (proj2 (Z.leb_le (run_at r1) (run_at r2))) by lia.
  cbn [insert_by_run_at].
  rewrite (proj2 (Z.leb_gt (run_at r3) (run_at r1))) by lia.
  rewrite (proj2 (Z.leb_gt (run_at r3) (run_at r2))) by lia.
  reflexivity.
Qed.


(** *** Looking a row up by its id *)

Lemma find_row_map_id (f : schedule -> schedule) (sid : Z) (l : list schedule) :
  (forall r, id (f r) = id r) ->
  find (fun r => id r =? sid) (map f l)
  = option_map f (find (fun r => id r =? sid) l).
Proof.
  intros Hf. induction l as [| r l IH]; cbn; [reflexivity |].
  rewrite Hf. destruct (id r =? sid); [reflexivity | exact IH].
Qed.

Lemma find_row_snoc (sid : Z) (l : list schedule) (x r : schedule) :
  find (fun r => id r =? sid) l = Some r ->
  find (fun r => id r =? sid) (l ++ [x]) = Some r.
Proof.
  induction l as [| y l IH]; cbn; [discriminate |].
  destruct (id y =? sid); [trivial | exact IH].
Qed.

Lemma find_row_unique (l : list schedule) (r : schedule) :
  NoDup (map id l) -> In r l -> find (fun x => id x =? id r) l = Some r.
Proof.
  induction l as [| y l IH]; cbn; [contradiction |].
  intros Hnd [-> | Hin]; [now rewrite Z.eqb_refl |].
  inversion Hnd as [| ? ? Hy Hl]; subst.
  destruct (Z.eqb_spec (id y) (id r)) as [E | _]; [| auto].
  exfalso. apply Hy. rewrite E. now apply in_map.
Qed.




Lemma find_row_cancel_status (sid sid' : Z) (t : table) :
  option_map status_of (find_row sid' (snd (cancel_schedule sid t)))
  = option_map (fun old => if (sid' =? sid) && status_eqb old pending
                           then canceled else old)
               (option_map status_of (find_row sid' t)).
Proof.
  unfold find_row, cancel_schedule, cancelable; cbn [snd rows].
  rewrite find_row_map_id
    by (intros r; destruct ((id r =? sid) && _); reflexivity).
  destruct (find (fun r => id r =? sid') (rows t)) as [r |] eqn:E; [| reflexivity].
  apply find_some in E as [_ E]. apply Z.eqb_eq in E. cbn. rewrite E.
  destruct ((sid' =? sid) && status_eqb (status_of r) pending); reflexivity.
Qed.

(** *** The ids stay distinct *)

Lemma fresh_ids_map (f : schedule -> schedule) (t : table) :
  (forall r, id (f r) = id r) ->
  fresh_ids t -> fresh_ids (mk_table (map f (rows t)) (next_id t)).
Proof.
  intros Hf [Hnd Hlt]. unfold fresh_ids; cbn [rows next_id]. split.
  - rewrite map_map. erewrite map_ext; [exact Hnd | exact Hf].
  - apply Forall_map. eapply Forall_impl; [| exact Hlt].
    intros r Hr. now rewrite Hf.
Qed.

Lemma fresh_ids_mark_sent sid st t : fresh_ids t -> fresh_ids (mark_sent sid st t).
Proof.
  apply fresh_ids_map. intros r. destruct (id r =? sid); reflexivity.
Qed.

Lemma fresh_ids_cancel sid t : fresh_ids t -> fresh_ids (snd (cancel_schedule sid t)).
Proof.
  apply fresh_ids_map. intros r. destruct (cancelable sid r); reflexivity.
Qed.

Lemma fresh_ids_add now uid run_at_utc msg a t :
  fresh_ids t -> fresh_ids (snd (add_schedule now uid run_at_utc msg a t)).
Proof.
  intros [Hnd Hlt]. unfold fresh_ids, add_schedule; cbn [snd rows next_id]. split.
  - rewrite map_app. cbn [map id]. apply NoDup_app. repeat split.
    + exact Hnd.
    + constructor; [intros [] | constructor].
    + intros x Hx [<- | []]. apply in_map_iff in Hx as (r & Er & Hr).
      rewrite Forall_forall in Hlt. specialize (Hlt r Hr). lia.
  - apply Forall_app. split.
    + eapply Forall_impl; [| exact Hlt]. cbn; intros; lia.
    + constructor; [cbn; lia | constructor].
Qed.

(** The rows of a batch are distinct rows of the table, pending when
    fetched. *)
Lemma fetch_due_batch (limit now : Z) (t : table) (rs : list schedule) :
  fresh_ids t -> fetch_due limit now t = inr rs ->
  NoDup (map id rs) /\
  Forall (fun r => option_map status_of (find_row (id r) t) = Some pending) rs.
Proof.
  intros [Hnd _] Hf. split.
  - unfold fetch_due in Hf. destruct (limit <? 0); [discriminate |].
    injection Hf as <-. rewrite <- firstn_map.
    set (sorted := order_by_run_at (filter (is_due now) (rows t))).
    apply (NoDup_app_remove_r _ (skipn (Z.to_nat limit) (map id sorted))).
    rewrite firstn_skipn.
    apply (Permutation_NoDup
             (Permutation_map id (Permutation_sym (order_by_run_at_perm _)))).
    clear -Hnd. induction (rows t) as [| r l IH]; cbn; [constructor |].
    inversion Hnd as [| ? ? Hr Hl]; subst.
    destruct (is_due now r); cbn; [| auto].
    constructor; [| auto].
    intros Hin. apply Hr. apply in_map_iff in Hin as (x & Ex & Hx).
    apply filter_In in Hx as [Hx _]. rewrite <- Ex. now apply in_map.
  - pose proof (fetch_due_rows_in_table _ _ _ _ Hf) as Hin.
    unfold fetch_due in Hf. destruct (limit <? 0); [discriminate |].
    injection Hf as <-.
    apply Forall_forall. intros r Hr.
    rewrite Forall_forall in Hin. unfold find_row.
    rewrite (find_row_unique _ _ Hnd (Hin r Hr)). cbn.
    assert (Hd : In r (filter (is_due now) (rows t))).
    { apply (Permutation_in r (order_by_run_at_perm _)).
      rewrite <- (firstn_skipn (Z.to_nat limit)). apply in_or_app; now left. }
    apply filter_In in Hd as [_ Hd]. unfold is_due in Hd.
    apply andb_true_iff in Hd as [Hd _]. apply status_eqb_eq in Hd. now rewrite Hd.
Qed.

End StoreFacts.

(** ** Splitting a string *)

Module PyStrFacts.
Import PyStr StrptimeFacts.

Lemma split_nonempty sep s : split sep s <> [].
Proof.
  destruct s as [| c s]; cbn; [discriminate |].
  destruct (Ascii.eqb c sep); [discriminate |].
  destruct (split sep s); discriminate.
Qed.

(** The pieces of a split do not contain the separator, *)
Lemma split_no_sep sep s :
  Forall (fun p => contains sep p = false) (split sep s).
Proof.
  induction s as [| c s IH]; cbn [split]; [repeat constructor |].
  destruct (Ascii.eqb c sep) eqn:E; [constructor; [reflexivity | exact IH] |].
  destruct (split sep s) as [| h t]; [repeat constructor |].
  - unfold contains; cbn. rewrite Ascii.eqb_sym, E. reflexivity.
  - inversion IH as [| ? ? Hh Ht]; subst. constructor; [| exact Ht].
    unfold contains in *; cbn. rewrite Ascii.eqb_sym, E. exact Hh.
Qed.

(** and joined by the separator they give the string back. *)
Lemma join_split sep s : join sep (split sep s) = s.
Proof.
  induction s as [| c s IH]; cbn [split]; [reflexivity |].
  destruct (Ascii.eqb_spec c sep) as [-> | Hne].
  - pose proof (split_nonempty sep s) as Hn.
    destruct (split sep s) as [| h t]; [congruence |].
    cbn [join]. cbn [join] in IH. cbn. now rewrite IH.
  - pose proof (split_nonempty sep s) as Hn.
    destruct (split sep s) as [| h t]; [congruence |].
    destruct t as [| h' t']; cbn [join] in IH |- *; cbn; now rewrite IH.
Qed.

Lemma join_first sep l :
  l <> [] ->
  join sep l = first l \/ exists rest, join sep l = first l ++ String sep rest.
Proof.
  destruct l as [| x [| y l]]; [congruence | now left |].
  intros _. right. eexists. reflexivity.
Qed.

Lemma join_last sep l :
  l <> [] ->
  join sep l = last l \/ exists dir, join sep l = dir ++ String sep (last l).
Proof.
  induction l as [| x l IH]; [congruence |]. intros _.
  destruct l as [| y l]; [now left |].
  right. destruct IH as [IH | [dir IH]]; [discriminate | |].
  - exists x. change (last (x :: y :: l)) with (last (y :: l)).
    change (join sep (x :: y :: l)) with (x ++ String sep (join sep (y :: l))).
    now rewrite IH.
  - exists (x ++ String sep dir).
    change (last (x :: y :: l)) with (last (y :: l)).
    change (join sep (x :: y :: l)) with (x ++ String sep (join sep (y :: l))).
    rewrite IH, append_assoc. reflexivity.
Qed.

(** [s.split(sep)[0]]: what comes before the first separator. *)
Lemma split_first sep s :
  contains sep (first (split sep s)) = false /\
  (s = first (split sep s) \/
   exists rest, s = first (split sep s) ++ String sep rest).
Proof.
  split.
  - pose proof (split_no_sep sep s) as H. pose proof (split_nonempty sep s).
    destruct (split sep s); [congruence |]. now inversion H.
  - destruct (join_first sep (split sep s) (split_nonempty sep s)) as [H | [rest H]];
      rewrite join_split in H; [left | right; exists rest]; exact H.
Qed.

(** [s.split(sep)[-1]]: what comes after the last separator. *)
Lemma split_last sep s :
  contains sep (last (split sep s)) = false /\
  (s = last (split sep s) \/
   exists dir, s = dir ++ String sep (last (split sep s))).
Proof.
  split.
  - pose proof (split_no_sep sep s) as H. pose proof (split_nonempty sep s) as Hn.
    rewrite Forall_forall in H. apply H.
    unfold last. destruct (exists_last Hn) as (l' & x & ->).
    rewrite last_last. apply in_or_app; right; now left.
  - destruct (join_last sep (split sep s) (split_nonempty sep s)) as [H | [dir H]];
      rewrite join_split in H; [left | right; exists dir]; exact H.
Qed.

End PyStrFacts.

(** ** The bot *)

Module BotFacts.
Import PyStr Strptime TimeFormat Datetime TimeConverter Store Bot.
Import StrptimeFacts StoreFacts PyStrFacts.

Lemma state_eta {World} (s : state World) :
  mk_state (db s) (world s) (console s) = s.
Proof. destruct s; reflexivity. Qed.

Section WithWorld.

Variable tz : timezone.
Context {World : Type}.
Variable fetch_user : Z -> World -> (exception + user) * World.
Variable http_get : string -> World -> (exception + string) * World.
Variable user_send :
  user -> string -> option (string * string) -> World -> (exception + unit) * World.

Abbreviation deliver := (Bot.deliver fetch_user http_get user_send).
Abbreviation process_row := (Bot.process_row fetch_user http_get user_send).
Abbreviation process_due := (Bot.process_due fetch_user http_get user_send).
Abbreviation after_row := (Bot.after_row fetch_user http_get user_send).

(** *** The attachment fetcher *)

(** C9. [download_bytes] raises what the GET raises; otherwise it returns
    the bytes and a filename. With [q] the URL up to its first [?] and
    [seg] what follows the last [/] of [q], the filename is [seg], or
    [file] when [seg] is empty. *)
Theorem download_bytes_filename (url : string) (s : state World) :
  download_bytes http_get url s
  = (let '(r, w) := http_get url (world s) in
     (match r with
      | inr data => inr (data, filename_of url)
      | inl e => inl e
      end, mk_state (db s) w (console s)))
  /\ exists q seg,
       (url = q \/ exists rest, url = q ++ "?" ++ rest) /\
       contains "?" q = false /\
       (q = seg \/ exists dir, q = dir ++ "/" ++ seg) /\
       contains "/" seg = false /\
       filename_of url = match seg with EmptyString => "file" | _ => seg end.
Proof.
  split.
  - unfold download_bytes, bind, call, ret.
    destruct (http_get url (world s)) as [[e | data] w]; reflexivity.
  - exists (first (split "?" url)), (last (split "/" (first (split "?" url)))).
    destruct (split_first "?" url) as [Hq1 Hq2].
    destruct (split_last "/" (first (split "?" url))) as [Hs1 Hs2].
    repeat split; assumption || reflexivity.
Qed.

(** *** The cancel command *)

Lemma status_in_mark_sent sid sid' st (t : table) w c :
  status_in sid (mk_state (World := World) (mark_sent sid' st t) w c)
  = option_map (fun old => if sid =? sid' then st else old)
               (status_in sid (mk_state t w c)).
Proof.
  unfold status_in, find_row, mark_sent; cbn [db rows].
  induction (rows t) as [| r l IH]; cbn [map find]; [reflexivity |].
  destruct (Z.eqb_spec (id r) sid') as [E | E].
  - cbn [set_status id]. destruct (Z.eqb_spec (id r) sid) as [E' | E'].
    + cbn. rewrite <- E', E, Z.eqb_refl. reflexivity.
    + exact IH.
  - destruct (Z.eqb_spec (id r) sid) as [E' | E']; [| exact IH].
    cbn. destruct (Z.eqb_spec sid sid'); [congruence | reflexivity].
Qed.

Lemma find_row_cancel sid (t : table) r :
  find_row sid t = Some r -> status_of r = pending ->
  find_row sid (snd (cancel_schedule sid t)) = Some (set_status canceled r).
Proof.
  unfold find_row, cancel_schedule, cancelable; cbn [snd rows].
  induction (rows t) as [| x l IH]; cbn [map find]; [discriminate |].
  destruct (Z.eqb_spec (id x) sid) as [E | E].
  - intros [= ->] Hp. rewrite Hp. cbn. rewrite E, Z.eqb_refl. reflexivity.
  - cbn [andb]. rewrite (proj2 (Z.eqb_neq _ _) E). exact IH.
Qed.

(** The command, case by case. *)
Lemma slash_cancel_eq (sid : Z) (s : state World) :
  slash_cancel sid s
  = match get_schedule sid (db s) with
    | inl e => (inl e, s)
    | inr None => (inr NotFound, s)
    | inr (Some r) =>
        match status_of r with
        | pending =>
            (inr (Canceled sid),
             mk_state (snd (cancel_schedule sid (db s))) (world s) (console s))
        | st => (inr (AlreadyStatus st), s)
        end
    end.
Proof.
  unfold slash_cancel, bind, get_schedule_m.
  destruct (get_schedule sid (db s)) as [e | [r |]]; [reflexivity | | reflexivity].
  destruct (status_of r); reflexivity.
Qed.


(** *** The schedule-create command *)

(** C7, as the code has it. A time that is not of the lenient format (an
    hour 1-12 in one or two digits, a colon, a minute 0-59 in one or two
    digits, whitespace, AM or PM in either letter case, whitespace around
    the whole ignored) makes the parser raise [ValueError]; the handler
    then answers with the validation message and leaves the state, the
    table included, as it was. *)
Theorem malformed_time_creates_nothing (now : Z) (u : user) (time : string)
    (message : option string) (file : option attachment) (s : state World) :
  ~ lenient_12h time ->
  (exists msg, parse_time_12h_to_utc tz now time = inl (ValueError msg)) /\
  slash_scheduledm tz now u time message file s = (inr InvalidTime, s).
Proof.
  intros Hbad. rewrite lenient_12h_iff in Hbad.
  unfold slash_scheduledm, parse_time_12h_to_utc.
  destruct (strptime_I_M_p (strip time)); [exfalso; apply Hbad; discriminate |].
  split; [eexists |]; reflexivity.
Qed.

(** C8, as the code has it. When the time parses, [/scheduledm] inserts
    one pending row that holds the message and the URL of the file exactly
    as the request gave them, either of which, or both, may be absent;
    otherwise it inserts nothing. *)
Theorem scheduledm_stores_fields_as_given (now : Z) (u : user) (time : string)
    (message : option string) (file : option attachment) (s : state World) :
  match parse_time_12h_to_utc tz now time with
  | inr run_utc =>
      slash_scheduledm tz now u time message file s
      = (inr (Scheduled (next_id (db s)) u (pretty_time_local tz run_utc)),
         mk_state
           (mk_table
              (rows (db s)
               ++ [mk_schedule (next_id (db s)) (u_id u) message
                     (option_map url file) (instant run_utc) pending now])%list
              (next_id (db s) + 1))
           (world s) (console s))
  | inl _ => slash_scheduledm tz now u time message file s = (inr InvalidTime, s)
  end.
Proof.
  unfold slash_scheduledm.
  destruct (parse_time_12h_to_utc tz now time) as [e | run_utc] eqn:Hp.
  - unfold parse_time_12h_to_utc in Hp.
    destruct (strptime_I_M_p (strip time)); [discriminate |].
    injection Hp as <-. reflexivity.
  - reflexivity.
Qed.

(** *** The dispatcher *)

(** A delivery raises when the resolution of the recipient raises, when
    there is an attachment and its download raises, or when the send
    raises, and with that exception. *)
Lemma deliver_outcome (row : schedule) (s : state World) :
  deliver row s
  = match fetch_user (user_id row) (world s) with
    | (inl e, w) => (inl e, mk_state (db s) w (console s))
    | (inr u, w) =>
        match attachment_url row with
        | Some (String _ _ as a) =>
            match http_get a w with
            | (inl e, w') => (inl e, mk_state (db s) w' (console s))
            | (inr data, w') =>
                let '(r, w'') :=
                  user_send u (opt_or (message row) "") (Some (data, filename_of a)) w' in
                (r, mk_state (db s) w'' (console s))
            end
        | _ =>
            let '(r, w') := user_send u (opt_or (message row) "") None w in
            (r, mk_state (db s) w' (console s))
        end
    end.
Proof.
  unfold Bot.deliver, download_bytes, bind, call, ret.
  destruct (fetch_user (user_id row) (world s)) as [[e | u] w]; [reflexivity |].
  destruct (attachment_url row) as [[| c a] |]; cbn [db world console];
    try reflexivity.
  destruct (http_get (String c a) w) as [[e | data] w']; reflexivity.
Qed.

Lemma deliver_keeps_db (row : schedule) (s : state World) :
  db (snd (deliver row s)) = db s /\ console (snd (deliver row s)) = console s.
Proof.
  unfold Bot.deliver, download_bytes, bind, call, ret.
  destruct (fetch_user (user_id row) (world s)) as [[e | u] w]; cbn; [auto |].
  destruct (attachment_url row) as [[| c a] |]; cbn [db world console].
  - destruct (user_send u _ None w) as [r w']; auto.
  - destruct (http_get (String c a) w) as [[e | data] w']; cbn; [auto |].
    destruct (user_send u _ _ w') as [r w'']; auto.
  - destruct (user_send u _ None w) as [r w']; auto.
Qed.

(** One row: the delivery and its bookkeeping never raise. *)
Lemma process_row_after_row (row : schedule) (s : state World) :
  process_row row s = (inr tt, after_row s row).
Proof.
  unfold Bot.process_row, Bot.after_row, try_except, bind, mark_sent_m, query, print.
  destruct (deliver row s) as [[e | []] s1]; reflexivity.
Qed.

Lemma for_each_process_row (rows : list schedule) (s : state World) :
  for_each rows process_row s = (inr tt, fold_left after_row rows s).
Proof.
  revert s. induction rows as [| row rows IH]; intros s; [reflexivity |].
  cbn [for_each fold_left]. unfold bind at 1.
  rewrite process_row_after_row. apply IH.
Qed.

Lemma status_in_after_row (sid : Z) (s : state World) (row : schedule) :
  exists st, delivered st /\
    status_in sid (after_row s row)
    = option_map (fun old => if sid =? id row then st else old) (status_in sid s).
Proof.
  unfold Bot.after_row.
  pose proof (deliver_keeps_db row s) as [Hdb _].
  destruct (deliver row s) as [[e | x] s1]; cbn [snd] in Hdb;
    [exists failed | exists sent]; (split; [unfold delivered; auto |]);
    rewrite status_in_mark_sent; unfold status_in; cbn [db]; now rewrite Hdb.
Qed.

Lemma after_row_delivered_self (s : state World) (row : schedule) :
  status_in (id row) s <> None ->
  exists st, status_in (id row) (after_row s row) = Some st /\ delivered st.
Proof.
  intros Hin. destruct (status_in_after_row (id row) s row) as (st & Hst & E).
  rewrite E. destruct (status_in (id row) s); [| congruence].
  cbn. rewrite Z.eqb_refl. eauto.
Qed.

Lemma after_row_delivered_stays (sid : Z) (s : state World) (row : schedule) :
  (exists st, status_in sid s = Some st /\ delivered st) ->
  exists st, status_in sid (after_row s row) = Some st /\ delivered st.
Proof.
  intros (st0 & E0 & H0). destruct (status_in_after_row sid s row) as (st & Hst & E).
  rewrite E, E0. cbn. destruct (sid =? id row); eauto.
Qed.

Lemma after_row_keeps_ids (sid : Z) (s : state World) (row : schedule) :
  status_in sid s <> None -> status_in sid (after_row s row) <> None.
Proof.
  intros Hin. destruct (status_in_after_row sid s row) as (st & _ & E).
  rewrite E. destruct (status_in sid s); [discriminate | congruence].
Qed.

Lemma fold_after_row_delivered (rows batch : list schedule) (s : state World) :
  Forall (fun row => exists st, status_in (id row) s = Some st /\ delivered st) batch ->
  Forall (fun row => exists st, status_in (id row) (fold_left after_row rows s) = Some st
                                /\ delivered st) batch.
Proof.
  revert s. induction rows as [| r rows IH]; intros s H; [exact H |].
  cbn [fold_left]. apply IH. eapply Forall_impl; [| exact H].
  intros row. apply after_row_delivered_stays.
Qed.

Lemma fold_after_row_all (rows : list schedule) (s : state World) :
  Forall (fun row => status_in (id row) s <> None) rows ->
  Forall (fun row => exists st, status_in (id row) (fold_left after_row rows s) = Some st
                                /\ delivered st) rows.
Proof.
  revert s. induction rows as [| r rows IH]; intros s H; [constructor |].
  inversion H as [| ? ? Hr Hrows]; subst. cbn [fold_left]. constructor.
  - refine (Forall_inv (fold_after_row_delivered rows [r] (after_row s r) _)).
    constructor; [| constructor]. now apply after_row_delivered_self.
  - apply IH. eapply Forall_impl; [| exact Hrows].
    intros row. apply after_row_keeps_ids.
Qed.

Lemma opt_or_empty (x : option string) :
  opt_or x "" = match x with Some m => m | None => "" end.
Proof. destruct x as [[| c m] |]; reflexivity. Qed.

Lemma fold_left_ext {A B} (f g : A -> B -> A) (l : list B) (a : A) :
  (forall a b, f a b = g a b) -> fold_left f l a = fold_left g l a.
Proof.
  intros H. revert a. induction l as [| b l IH]; intros a; [reflexivity |].
  cbn [fold_left]. rewrite H. apply IH.
Qed.

(** C3. A tick never raises: [process_due] returns normally, having
    handled every row of the batch it fetched, one after the other in the
    order fetched, whatever happened to the rows before. To handle a row is
    to attempt its delivery: resolve the recipient, download the attachment
    if the row has a non-empty URL, send the message (or the empty text)
    with the file under the name derived from the URL; the attempt fails
    with the exception of the first of these calls that raises. After an
    attempt that failed the row is marked [failed] and a line with the id
    of the row, the id of the recipient and the text of the exception is
    printed; after one that did not, the row is marked [sent] and nothing
    is printed. To mark a row changes the status of that id and of no
    other. When the tick is over every row of the batch is [sent] or
    [failed]. *)
Theorem process_due_isolates_failures (now : Z) (s : state World) :
  let content (row : schedule) : string :=
    match message row with Some m => m | None => "" end in
  let attempt (row : schedule) (w : World) : option exception * World :=
    match fetch_user (user_id row) w with
    | (inl e, w1) => (Some e, w1)
    | (inr u, w1) =>
        match attachment_url row with
        | Some (String _ _ as a) =>
            match http_get a w1 with
            | (inl e, w2) => (Some e, w2)
            | (inr data, w2) =>
                match user_send u (content row) (Some (data, filename_of a)) w2 with
                | (inl e, w3) => (Some e, w3)
                | (inr _, w3) => (None, w3)
                end
            end
        | _ =>
            match user_send u (content row) None w1 with
            | (inl e, w2) => (Some e, w2)
            | (inr _, w2) => (None, w2)
            end
        end
    end in
  let handle (s0 : state World) (row : schedule) : state World :=
    match attempt row (world s0) with
    | (Some e, w) =>
        mk_state (mark_sent (id row) failed (db s0)) w
          (console s0
           ++ [("Failed to send schedule " ++ str_of_Z (id row) ++ " to "
                ++ str_of_Z (user_id row) ++ ": " ++ str_of_exception e)%string])%list
    | (None, w) => mk_state (mark_sent (id row) sent (db s0)) w (console s0)
    end in
  (exists batch,
     fetch_due 30 now (db s) = inr batch /\
     process_due now s = (inr tt, fold_left handle batch s) /\
     Forall (fun row =>
               status_in (id row) (fold_left handle batch s) = Some sent \/
               status_in (id row) (fold_left handle batch s) = Some failed)
            batch)
  /\ (forall (s0 : state World) (row : schedule) (sid : Z),
        status_in sid (handle s0 row)
        = option_map (fun old =>
                        if sid =? id row
                        then match fst (attempt row (world s0)) with
                             | Some _ => failed
                             | None => sent
                             end
                        else old)
                     (status_in sid s0)).
Proof.
  intros content attempt handle.
  assert (Hh : forall s0 row, after_row s0 row = handle s0 row).
  { intros s0 row. unfold Bot.after_row, handle, attempt, content.
    rewrite deliver_outcome, opt_or_empty.
    destruct (fetch_user (user_id row) (world s0)) as [[e | u] w1]; [reflexivity |].
    destruct (attachment_url row) as [[| c a] |].
    - destruct (user_send u _ None w1) as [[e | x] w2]; reflexivity.
    - destruct (http_get (String c a) w1) as [[e | data] w2]; [reflexivity |].
      destruct (user_send u _ (Some (data, filename_of (String c a))) w2)
        as [[e | x] w3]; reflexivity.
    - destruct (user_send u _ None w1) as [[e | x] w2]; reflexivity. }
  split.
  - destruct (fetch_due 30 now (db s)) as [e | batch] eqn:Hf;
      [unfold fetch_due in Hf; discriminate |].
    exists batch. split; [reflexivity |].
    rewrite <- (fold_left_ext _ _ batch s Hh). split.
    + unfold Bot.process_due, bind, fetch_due_m. rewrite Hf.
      apply for_each_process_row.
    + assert (Hall : Forall (fun row => status_in (id row) s <> None) batch).
      { eapply Forall_impl; [| exact (fetch_due_rows_in_table _ _ _ _ Hf)].
        intros row Hin. unfold status_in, find_row.
        destruct (find (fun r => id r =? id row) (rows (db s))) eqn:Hfind;
          [discriminate |].
        pose proof (find_none _ _ Hfind row Hin) as Hno. cbn in Hno.
        rewrite Z.eqb_refl in Hno. discriminate. }
      eapply Forall_impl; [| exact (fold_after_row_all batch s Hall)].
      intros row (st & -> & [-> | ->]); auto.
  - intros s0 row sid. unfold handle.
    destruct (attempt row (world s0)) as [[e |] w]; cbn [fst];
      rewrite status_in_mark_sent; reflexivity.
Qed.

(** The diagnostic names the schedule, the recipient and the error. *)
Lemma diagnostic_text (sid uid : Z) (e : exception) :
  diagnostic sid uid e
  = "Failed to send schedule " ++ str_of_Z sid ++ " to " ++ str_of_Z uid
    ++ ": " ++ str_of_exception e.
Proof. reflexivity. Qed.

(** *** The statuses a row goes through *)

Abbreviation step := (Bot.step tz fetch_user http_get user_send).
Abbreviation steps := (Bot.steps tz fetch_user http_get user_send).

Lemma slash_scheduledm_db now u time message file (s : state World) :
  db (snd (slash_scheduledm tz now u time message file s)) = db s \/
  exists run_utc,
    db (snd (slash_scheduledm tz now u time message file s))
    = snd (add_schedule now (u_id u) run_utc message (option_map url file) (db s)).
Proof.
  unfold slash_scheduledm.
  destruct (parse_time_12h_to_utc tz now time) as [[] | run_utc]; cbn; auto.
  right. exists run_utc. reflexivity.
Qed.

Lemma status_in_scheduledm sid a now u time message file (s : state World) :
  status_in sid s = Some a ->
  status_in sid (snd (slash_scheduledm tz now u time message file s)) = Some a.
Proof.
  unfold status_in. intros Ha.
  destruct (slash_scheduledm_db now u time message file s) as [-> | [run_utc ->]];
    [exact Ha |].
  unfold add_schedule, find_row in *; cbn [snd rows].
  destruct (find (fun r => id r =? sid) (rows (db s))) as [r |] eqn:E;
    [| discriminate].
  now rewrite (find_row_snoc _ _ _ _ E).
Qed.

Lemma slash_cancel_db sid (s : state World) :
  db (snd (slash_cancel sid s)) = db s \/
  db (snd (slash_cancel sid s)) = snd (cancel_schedule sid (db s)).
Proof.
  rewrite slash_cancel_eq.
  destruct (get_schedule sid (db s)) as [e | [r |]]; [now left | | now left].
  destruct (status_of r); cbn; auto.
Qed.

Lemma status_in_cancel sid' sid a (s : state World) :
  status_in sid' s = Some a ->
  exists b, status_in sid' (snd (slash_cancel sid s)) = Some b /\
            (b = a \/ (a = pending /\ b = canceled)).
Proof.
  unfold status_in. intros Ha.
  destruct (slash_cancel_db sid s) as [-> | ->]; [eauto |].
  rewrite find_row_cancel_status, Ha. cbn.
  destruct (sid' =? sid); cbn; [| eauto].
  destruct a; cbn; eauto.
Qed.

Lemma db_after_row (s : state World) (row : schedule) :
  exists st, delivered st /\ db (after_row s row) = mark_sent (id row) st (db s).
Proof.
  unfold Bot.after_row. pose proof (deliver_keeps_db row s) as [Hdb _].
  destruct (deliver row s) as [[e | x] s1]; cbn [snd db] in *;
    [exists failed | exists sent]; unfold delivered; rewrite Hdb; auto.
Qed.

(** The invariant of the rows in flight is kept by every step. *)
Lemma tick_invariant_step (s s' : system) :
  tick_invariant s -> step s s' -> tick_invariant s'.
Proof.
  intros (Hf & Hnd & Hst) Hstep.
  destruct Hstep as [now u time message file s | sid s | now rows s Hidle Hfetch
                    | row rest s Hrows]; unfold tick_invariant; cbn [bot tick_rows].
  - split; [| split; [exact Hnd |]].
    + destruct (slash_scheduledm_db now u time message file (bot s)) as [-> | [r ->]];
        [exact Hf | now apply fresh_ids_add].
    + eapply Forall_impl; [| exact Hst].
      intros row [H | H]; [left | right]; now apply status_in_scheduledm.
  - split; [| split; [exact Hnd |]].
    + destruct (slash_cancel_db sid (bot s)) as [-> | ->];
        [exact Hf | now apply fresh_ids_cancel].
    + eapply Forall_impl; [| exact Hst].
      intros row [H | H];
        destruct (status_in_cancel (id row) sid _ (bot s) H) as (b & -> & [-> | [E ->]]);
        auto; discriminate.
  - unfold fetch_due_m in Hfetch. apply (f_equal fst) in Hfetch. cbn [fst] in Hfetch.
    destruct (fetch_due_batch _ _ _ _ Hf Hfetch) as [Hnd' Hp].
    split; [exact Hf |]. split; [exact Hnd' |].
    eapply Forall_impl; [| exact Hp]. intros row H. left. exact H.
  - rewrite Hrows in Hnd, Hst. cbn [map] in Hnd.
    inversion Hnd as [| ? ? Hrow Hrest]; subst.
    inversion Hst as [| ? ? _ Hst']; subst.
    rewrite process_row_after_row; cbn [snd].
    split; [| split; [exact Hrest |]].
    + destruct (db_after_row (bot s) row) as (st & _ & ->).
      now apply fresh_ids_mark_sent.
    + apply Forall_forall. intros r Hr.
      rewrite Forall_forall in Hst'. specialize (Hst' r Hr).
      destruct (status_in_after_row (id r) (bot s) row) as (st & _ & ->).
      destruct (Z.eqb_spec (id r) (id row)) as [E | _].
      * exfalso. apply Hrow. rewrite <- E. now apply in_map.
      * destruct Hst' as [-> | ->]; auto.
Qed.

Lemma tick_invariant_steps (s s' : system) :
  tick_invariant s -> steps s s' -> tick_invariant s'.
Proof.
  intros H Hsteps. induction Hsteps as [| s1 s2 s3 _ IH Hstep]; [exact H |].
  eapply tick_invariant_step; [apply IH, H | exact Hstep].
Qed.

(** What the program does to the status of a row in one step: nothing;
    or it takes it out of [pending]; or the tick that had fetched the row
    before it was canceled overwrites [canceled] with [sent] or [failed]. *)
Lemma status_transitions (s s' : system) (sid : Z) (a : status) :
  tick_invariant s -> step s s' ->
  status_in sid (bot s) = Some a ->
  exists b, status_in sid (bot s') = Some b /\ transition a b.
Proof.
  intros (Hf & Hnd & Hst) Hstep Ha.
  destruct Hstep as [now u time message file s | sid' s | now rows s Hidle Hfetch
                    | row rest s Hrows]; cbn [bot].
  - exists a. split; [now apply status_in_scheduledm | now left].
  - destruct (status_in_cancel sid sid' a (bot s) Ha) as (b & Hb & Hab).
    exists b. split; [exact Hb |]. destruct Hab as [-> | [-> ->]].
    + now left.
    + right; left. split; [reflexivity | discriminate].
  - exists a. split; [exact Ha | now left].
  - rewrite process_row_after_row; cbn [snd].
    destruct (status_in_after_row sid (bot s) row) as (st & Hd & ->).
    rewrite Ha. cbn. destruct (Z.eqb_spec sid (id row)) as [-> | _].
    + exists st. split; [reflexivity |].
      rewrite Hrows in Hst. inversion Hst as [| ? ? Hrow _]; subst.
      rewrite Ha in Hrow. destruct Hrow as [[= ->] | [= ->]].
      * right; left. split; [reflexivity |]. destruct Hd as [-> | ->]; discriminate.
      * right; right. split; [reflexivity | exact Hd].
    + exists a. split; [reflexivity | now left].
Qed.

(** X15. Once [sent] or [failed], the status of a row never changes
    again, whatever step the program takes: a command or a step of a
    tick. *)
Lemma delivered_is_final (s s' : system) (sid : Z) (a : status) :
  tick_invariant s -> step s s' ->
  status_in sid (bot s) = Some a -> delivered a ->
  status_in sid (bot s') = Some a.
Proof.
  intros Hinv Hstep Ha Hd.
  destruct (status_transitions s s' sid a Hinv Hstep Ha) as (b & Hb & Ht).
  rewrite Hb. f_equal.
  destruct Ht as [<- | [[-> _] | [-> _]]]; [reflexivity | |];
    destruct Hd; discriminate.
Qed.

End WithWorld.

End BotFacts.

(** ** The program at work in the small world *)

Module ScenarioFacts.
Import PyStr Strptime TimeFormat Datetime TimeConverter Store Bot Scenario.
Import StrptimeFacts BotFacts.

(** C7, as stated. "2:5 PM" is not of the strict format, its minute having
    one digit; the parser reads it as 14:05 and [/scheduledm] creates the
    schedule. *)
Lemma single_digit_minute_is_accepted :
  ~ strict_12h "2:5 PM" /\
  exists run_utc s',
    parse_time_12h_to_utc riyadh new_year_morning "2:5 PM" = inr run_utc /\
    wall (astimezone riyadh run_utc) = mk_naive 738886 14 5 0 0 /\
    slash_scheduledm riyadh new_year_morning (mk_user 7 "member") "2:5 PM"
                     (Some "hi") None start
    = (inr (Scheduled 1 (mk_user 7 "member") "2024-01-01 02:05 PM"), s') /\
    List.length (rows (db s')) = S (List.length (rows (db start))).
Proof.
  split.
  - intros (H & M & ws & P & E & HH & HM & _).
    destruct M as [| c1 [| c2 [| ? ?]]]; cbn [minute_two_digits] in HM;
      try discriminate.
    apply andb_true_iff in HM as [_ Hc2].
    destruct H as [| a [| b [| ? ?]]]; cbn [hour_numeral] in HH; try discriminate.
    cbn in E. inversion E; subst. discriminate Hc2.
  - exists (mk_datetime (mk_naive 738886 11 5 0 0) UTC).
    exists (snd (slash_scheduledm riyadh new_year_morning (mk_user 7 "member")
                   "2:5 PM" (Some "hi") None start)).
    repeat split; vm_compute; reflexivity.
Qed.

(** C7 at "25:99". *)
Lemma malformed_time_creates_nothing_witness :
  ~ lenient_12h "25:99" /\
  (exists msg,
     parse_time_12h_to_utc riyadh new_year_morning "25:99" = inl (ValueError msg)) /\
  slash_scheduledm riyadh new_year_morning (mk_user 7 "member") "25:99"
                   (Some "hi") None start
  = (inr InvalidTime, start).
Proof.
  assert (H : ~ lenient_12h "25:99").
  { intros H. apply lenient_12h_iff in H. apply H. reflexivity. }
  split; [exact H |].
  exact (malformed_time_creates_nothing riyadh new_year_morning
           (mk_user 7 "member") "25:99" (Some "hi") None start H).
Defined.

(** C8, as stated. [/scheduledm] with neither a message nor a file creates
    a schedule that has neither. *)
Lemma scheduledm_without_content_creates_record :
  exists s' r,
    slash_scheduledm riyadh new_year_morning (mk_user 7 "member") "02:30 PM"
                     None None start
    = (inr (Scheduled 1 (mk_user 7 "member") "2024-01-01 02:30 PM"), s') /\
    rows (db s') = [r] /\ id r = 1 /\ status_of r = pending /\
    message r = None /\ attachment_url r = None.
Proof.
  exists (snd (slash_scheduledm riyadh new_year_morning (mk_user 7 "member")
                 "02:30 PM" None None start)).
  eexists. split; [vm_compute; reflexivity |]. repeat split; reflexivity.
Qed.


(** C9, as stated. The path of [https://example.com] is empty, and so is its
    last segment, for which the claim names [file]: the fetcher returns
    the host. The last path segment of [https://example.com/a.png#top/left]
    is [a.png]: the fetcher returns what follows the slash of the
    fragment. *)
Lemma url_without_path_yields_its_host :
  SpecUrl.spec_last_path_segment "https://example.com" = "" /\
  SpecUrl.spec_filename "https://example.com" = "file" /\
  download_bytes http_get "https://example.com" start
  = (inr ("DATA", "example.com"), start) /\
  SpecUrl.spec_filename "https://example.com/a.png#top/left" = "a.png" /\
  download_bytes http_get "https://example.com/a.png#top/left" start
  = (inr ("DATA", "left"), start).
Proof. repeat split; vm_compute; reflexivity. Qed.

(** C2. A schedule is created for 10:01; an hour later a tick fetches it;
    while the tick awaits, [/cancel] cancels it and confirms; the tick
    then delivers the message and overwrites the status: the row goes from
    [canceled] to [sent]. *)
Theorem canceled_schedule_marked_sent :
  step idle created /\ status_in 1 (bot created) = Some pending /\
  step created fetched /\
  step fetched canceled_meanwhile /\
  slash_cancel 1 (bot fetched) = (inr (Canceled 1), bot canceled_meanwhile) /\
  status_in 1 (bot canceled_meanwhile) = Some canceled /\
  step canceled_meanwhile tick_done /\
  status_in 1 (bot tick_done) = Some sent /\
  world (bot tick_done) = [(7, "hi", None)].
Proof.
  split; [apply step_scheduledm |].
  split; [vm_compute; reflexivity |].
  split.
  { apply (step_tick_fetch riyadh _ _ _ (new_year_morning + US_PER_HOUR));
      [reflexivity | vm_compute; reflexivity]. }
  split; [apply step_cancel |].
  split; [vm_compute; reflexivity |].
  split; [vm_compute; reflexivity |].
  split; [apply (step_tick_row riyadh _ _ _ the_row []); reflexivity |].
  split; vm_compute; reflexivity.
Qed.

(** The run above starts in a state that satisfies the invariant of the
    rows in flight. *)
Lemma tick_invariant_idle :
  tick_invariant (World := World) idle.
Proof.
  repeat split; cbn; constructor.
Qed.

End ScenarioFacts.

(** ** More on the time converter and the attachment fetcher *)

Module ConverterFacts.
Import PyStr Strptime TimeFormat Datetime TimeConverter Bot Commands.
Import DatetimeFacts StrptimeFacts TimeConverterFacts PyStrFacts.

(** *** What the parser reads *)

Lemma hour24_mod (h : Z) (p : meridiem) :
  1 <= h <= 12 ->
  hour24 h p = h mod 12 + match p with AM => 0 | PM => 12 end.
Proof.
  intros Hh. unfold hour24.
  destruct p; destruct (Z.eqb_spec h 12) as [-> | Hne]; try reflexivity;
    rewrite Z.mod_small by lia; lia.
Qed.

(** X1. A time the parser accepts is an hour numeral 1-12 in one or two
    digits, a colon, a minute numeral 0-59 in one or two digits, whitespace
    (at least one character) and a marker AM or PM in either letter case;
    the hour it reads is the numeral modulo 12, plus 12 when the marker is
    PM (so 12 AM is hour 0 and 12 PM is hour 12), the minute is the
    numeral, and both are in range. *)
Theorem strptime_reads_clock (s : string) (t : time) :
  strptime_I_M_p s = Some t ->
  exists H M ws P,
    s = H ++ ":" ++ M ++ ws ++ P /\
    hour_numeral H = true /\ minute_one_or_two_digits M = true /\
    ws <> "" /\ all_space ws = true /\
    (exists a m, P = String a (String m "") /\
                 (lower a = "a" \/ lower a = "p")%char /\ (lower m = "m")%char /\
                 t_hour t = int_of H mod 12
                            + (if Ascii.eqb (lower a) "p" then 12 else 0)) /\
    1 <= int_of H <= 12 /\
    t_minute t = int_of M /\
    0 <= t_hour t < 24 /\ 0 <= t_minute t < 60.
Proof.
  intros Hs. pose proof (strptime_range _ _ Hs) as [Hh Hm].
  apply strptime_sound in Hs as (H & M & ws & P & -> & HH & HM & Hne & Hws & HP & ->).
  exists H, M, ws, P. cbn [t_hour t_minute] in *.
  pose proof (hour_numeral_range H HH) as HHr.
  repeat split; try assumption; try lia.
  destruct P as [| a [| m [| ? ?]]]; cbn [marker] in HP; try discriminate.
  apply andb_true_iff in HP as [Ha Hm'].
  apply Ascii.eqb_eq in Hm'. exists a, m. split; [reflexivity |].
  rewrite hour24_mod by exact HHr. cbn [meridiem_of].
  apply orb_true_iff in Ha as [Ha | Ha]; apply Ascii.eqb_eq in Ha; rewrite Ha;
    repeat split; auto.
Qed.

Lemma strptime_reads_clock_witness :
  strptime_I_M_p "02:30 PM" = Some (mk_time 14 30) /\
  exists H M ws P,
    "02:30 PM" = H ++ ":" ++ M ++ ws ++ P /\
    hour_numeral H = true /\ minute_one_or_two_digits M = true /\
    ws <> "" /\ all_space ws = true /\
    (exists a m, P = String a (String m "") /\
                 (lower a = "a" \/ lower a = "p")%char /\ (lower m = "m")%char /\
                 t_hour (mk_time 14 30)
                 = int_of H mod 12
                   + (if Ascii.eqb (lower a) "p" then 12 else 0)) /\
    1 <= int_of H <= 12 /\
    t_minute (mk_time 14 30) = int_of M /\
    0 <= t_hour (mk_time 14 30) < 24 /\ 0 <= t_minute (mk_time 14 30) < 60.
Proof.
  split; [reflexivity |].
  apply (strptime_reads_clock "02:30 PM" (mk_time 14 30)). reflexivity.
Defined.

(** *** Whitespace around the time *)

Lemma rstrip_rstrip (s : string) : rstrip (rstrip s) = rstrip s.
Proof.
  induction s as [| c s IH]; cbn [rstrip]; [reflexivity |].
  destruct (rstrip s) as [| c' r] eqn:E.
  - destruct (isspace c) eqn:Ec; cbn [rstrip]; [reflexivity |].
    now rewrite Ec.
  - cbn [rstrip]. cbn [rstrip] in IH.
    destruct (rstrip r) as [| c'' r'] eqn:E'.
    + destruct (isspace c') eqn:Ec'; [discriminate IH |].
      now rewrite IH.
    + now rewrite IH.
Qed.

Lemma lstrip_head (s : string) :
  lstrip s = EmptyString \/
  exists c r, lstrip s = String c r /\ isspace c = false.
Proof.
  induction s as [| c s IH]; cbn [lstrip]; [now left |].
  destruct (isspace c) eqn:Ec; [exact IH |]. right. eauto.
Qed.

Lemma rstrip_head (c : ascii) (r : string) :
  isspace c = false -> exists r', rstrip (String c r) = String c r'.
Proof.
  intros Hc. cbn [rstrip]. destruct (rstrip r); [rewrite Hc |]; eauto.
Qed.

Lemma strip_strip (s : string) : strip (strip s) = strip s.
Proof.
  unfold strip. destruct (lstrip_head s) as [-> | (c & r & -> & Hc)];
    [reflexivity |].
  destruct (rstrip_head c r Hc) as [r' E]. rewrite E.
  cbn [lstrip]. rewrite Hc, <- E. apply rstrip_rstrip.
Qed.

(** X2. Whitespace before and after the time makes no difference to the
    converter: it answers for a string as for the string stripped. *)
Theorem parse_time_ignores_outer_whitespace (tz : timezone) (now_utc : Z)
    (s : string) :
  parse_time_12h_to_utc tz now_utc (strip s) = parse_time_12h_to_utc tz now_utc s.
Proof.
  unfold parse_time_12h_to_utc. now rewrite strip_strip.
Qed.

(** *** From the display back to the converter *)

Lemma shown_is_taken_all :
  Enumeration.all_below 24 (fun h => Enumeration.all_below 60 (shown_is_taken h))
  = true.
Proof. vm_compute. reflexivity. Qed.

(** X3. The time of day that [pretty_time_local] shows for an instant is
    itself a time the parser takes, and it reads it as the hour and minute
    of the local wall clock at that instant. *)
Theorem pretty_time_local_is_taken (tz : timezone) (utc_dt : datetime) :
  let local := wall (astimezone tz utc_dt) in
  pretty_time_local tz utc_dt
  = strftime_Y_m_d local ++ " " ++ strftime_I_M_p local /\
  strptime_I_M_p (strip (strftime_I_M_p local))
  = Some (mk_time (hour local) (minute local)).
Proof.
  cbv zeta. split; [reflexivity |].
  set (local := wall (astimezone tz utc_dt)).
  assert (Hwf : wf_naive local) by apply wf_of_us.
  destruct Hwf as (Hh & Hm & _).
  pose proof (all_below_spec _ _ (hour local) shown_is_taken_all Hh) as H1.
  pose proof (all_below_spec _ _ (minute local) H1 Hm) as H2.
  unfold shown_is_taken in H2.
  change (strftime_I_M_p (mk_naive 0 (hour local) (minute local) 0 0))
    with (strftime_I_M_p local) in H2.
  destruct (strptime_I_M_p (strip (strftime_I_M_p local))) as [[h m] |];
    [| discriminate].
  cbn [t_hour t_minute] in H2. apply andb_true_iff in H2 as [Ea Eb].
  apply Z.eqb_eq in Ea, Eb. subst. reflexivity.
Qed.

(** *** How far ahead *)

(** X4. In a zone of constant offset the instant the converter returns is
    after now and at most one day after now. *)
Theorem parse_time_static_within_a_day (off now_utc : Z) (s : string) :
  match parse_time_12h_to_utc (static_tz off) now_utc s with
  | inr run_utc => now_utc < instant run_utc <= now_utc + US_PER_DAY
  | inl _ => strptime_I_M_p (strip s) = None
  end.
Proof.
  destruct (strptime_I_M_p (strip s)) as [t |] eqn:Hs.
  - pose proof (strptime_range _ _ Hs) as [Hh Hm].
    destruct (parse_time_static_next_occurrence off now_utc s t Hs)
      as (run_utc & -> & _ & Hlt & Hw).
    cbv zeta in Hw. split; [exact Hlt |].
    apply (f_equal to_us) in Hw.
    rewrite wall_astimezone_static, to_us_of_us in Hw.
    set (now_local := wall (at_instant (static_tz off) now_utc)) in *.
    assert (Hnow : to_us now_local = now_utc + off * US_PER_MINUTE)
      by (unfold now_local, at_instant; cbn; apply to_us_of_us).
    assert (Hwf : wf_naive now_local) by apply wf_of_us.
    destruct Hwf as (H1 & H2 & H3 & H4).
    unfold to_us in Hw, Hnow; cbn [ordinal hour minute second microsecond] in Hw.
    unfold time_of_day in Hw.
    destruct (Z.ltb_spec
                (hour now_local * US_PER_HOUR + minute now_local * US_PER_MINUTE
                 + second now_local * US_PER_SECOND + microsecond now_local)
                (t_hour t * US_PER_HOUR + t_minute t * US_PER_MINUTE));
      units; lia.
  - unfold parse_time_12h_to_utc. rewrite Hs. reflexivity.
Qed.

(** *** The name under which a file is forwarded *)

Lemma contains_app (c : ascii) (a b : string) :
  contains c (a ++ b) = contains c a || contains c b.
Proof.
  unfold contains. induction a as [| x a IH]; cbn; [reflexivity |].
  rewrite IH. now rewrite orb_assoc.
Qed.

(** X5. The filename derived from a URL is never empty and holds neither
    a slash nor a question mark. *)
Theorem filename_of_is_a_plain_name (url : string) :
  filename_of url <> EmptyString /\
  contains "/" (filename_of url) = false /\
  contains "?" (filename_of url) = false.
Proof.
  unfold filename_of.
  destruct (split_first "?" url) as [Hq _].
  destruct (split_last "/" (first (split "?" url))) as [Hs Hq'].
  set (q := first (split "?" url)) in *.
  set (seg := last (split "/" q)) in *.
  assert (Hseg : contains "?" seg = false).
  { destruct Hq' as [E | [dir E]]; rewrite E in Hq; [exact Hq |].
    rewrite contains_app in Hq. apply orb_false_iff in Hq as [_ Hq].
    change (String "/" seg) with ("/" ++ seg) in Hq.
    rewrite contains_app in Hq. now apply orb_false_iff in Hq as [_ Hq]. }
  destruct seg as [| c r]; cbn [or_else].
  - split; [discriminate | split; reflexivity].
  - split; [discriminate | split; [exact Hs | exact Hseg]].
Qed.

End ConverterFacts.

(** ** More on the store and the commands *)

Module CommandsFacts.
Import PyStr Strptime Datetime TimeConverter Store Bot Commands Scenario.
Import DatetimeFacts TimeConverterFacts StoreFacts BotFacts.

(** *** Cancelling twice *)

Lemma cancelable_after_cancel (sid : Z) (r : schedule) :
  cancelable sid (if cancelable sid r then set_status canceled r else r) = false.
Proof.
  destruct (cancelable sid r) eqn:E; [| exact E].
  unfold cancelable; cbn. apply andb_false_r.
Qed.

(** X6. The conditional update is idempotent: run again on its own result
    it updates no row and leaves the table as it is. *)
Theorem cancel_schedule_twice (sid : Z) (t : table) :
  cancel_schedule sid (snd (cancel_schedule sid t))
  = (0, snd (cancel_schedule sid t)).
Proof.
  unfold cancel_schedule; cbn [snd rows next_id]. f_equal.
  - induction (rows t) as [| r l IH]; cbn [map filter]; [reflexivity |].
    rewrite cancelable_after_cancel. exact IH.
  - f_equal. rewrite map_map. apply map_ext. intros r.
    now rewrite cancelable_after_cancel.
Qed.

Lemma no_row_to_cancel (sid : Z) (l : list schedule) :
  ~ In sid (map id l) -> filter (cancelable sid) l = [].
Proof.
  induction l as [| r l IH]; cbn [map filter]; [reflexivity |].
  intros Hn. unfold cancelable at 1.
  destruct (Z.eqb_spec (id r) sid) as [E | _]; [exfalso; apply Hn; now left |].
  cbn [andb]. apply IH. intros H. apply Hn. now right.
Qed.

(** X7. With distinct ids the count [cancel_schedule] returns is 1 when
    the id names a pending row and 0 otherwise (no such row, or one that is
    not pending). *)
Theorem cancel_schedule_count (sid : Z) (t : table) :
  fresh_ids t ->
  fst (cancel_schedule sid t)
  = match find_row sid t with
    | Some r => if status_eqb (status_of r) pending then 1 else 0
    | None => 0
    end.
Proof.
  intros [Hnd _]. unfold cancel_schedule, find_row; cbn [fst].
  induction (rows t) as [| r l IH]; cbn [map filter find] in *; [reflexivity |].
  inversion Hnd as [| ? ? Hr Hl]; subst.
  unfold cancelable at 1.
  destruct (Z.eqb_spec (id r) sid) as [E | _]; cbn [andb].
  - rewrite E in Hr.
    destruct (status_eqb (status_of r) pending); cbn [List.length];
      rewrite (no_row_to_cancel sid l Hr); reflexivity.
  - apply IH, Hl.
Qed.

Lemma cancel_schedule_count_witness :
  fresh_ids (db (bot created)) /\
  fst (cancel_schedule 1 (db (bot created)))
  = match find_row 1 (db (bot created)) with
    | Some r => if status_eqb (status_of r) pending then 1 else 0
    | None => 0
    end.
Proof.
  assert (H : fresh_ids (db (bot created))).
  { split; vm_compute.
    - constructor; [intros [] | constructor].
    - constructor; [reflexivity | constructor]. }
  split; [exact H | exact (cancel_schedule_count 1 (db (bot created)) H)].
Defined.

Section WithWorld.

Variable tz : timezone.
Context {World : Type}.
Variable http_get : string -> World -> (exception + string) * World.
Variable user_send :
  user -> string -> option (string * string) -> World -> (exception + unit) * World.

(** X8. A second [/cancel] of the same id never confirms a cancellation
    and never changes the state. For an id that fits the 32-bit [id]
    column it answers [Not found] or with the status the row has, which is
    not [pending]; for an id outside the column's range the first call has
    raised [DataError] and changed nothing, and the second raises it
    again. *)
Theorem second_cancel_never_confirms (sid : Z) (s : state World) :
  let s1 := snd (slash_cancel sid s) in
  if in_int32 sid
  then
    slash_cancel sid s1
    = (inr match status_in sid s1 with
           | Some st => AlreadyStatus st
           | None => NotFound
           end, s1)
    /\ status_in sid s1 <> Some pending
  else
    exists msg,
      slash_cancel sid s = (inl (DataError msg), s) /\
      slash_cancel sid s1 = (inl (DataError msg), s1).
Proof.
  cbv zeta. destruct (in_int32 sid) eqn:Hin.
  - assert (Hrun : forall s0 : state World,
               status_in sid s0 <> Some pending ->
               slash_cancel sid s0
               = (inr match status_in sid s0 with
                      | Some st => AlreadyStatus st
                      | None => NotFound
                      end, s0)).
    { intros s0 Hnp. unfold status_in in *.
      rewrite slash_cancel_eq. unfold get_schedule. rewrite Hin.
      destruct (find_row sid (db s0)) as [r |]; cbn [option_map] in *;
        [| reflexivity].
      destruct (status_of r) eqn:E; try reflexivity. congruence. }
    assert (Hnp : status_in sid (snd (slash_cancel sid s)) <> Some pending).
    { rewrite slash_cancel_eq. unfold status_in, get_schedule. rewrite Hin.
      destruct (find_row sid (db s)) as [r |] eqn:Hg.
      - destruct (status_of r) eqn:Hp; cbn [snd db];
          try (rewrite Hg; cbn; rewrite Hp; discriminate).
        rewrite (find_row_cancel sid (db s) r Hg Hp). discriminate.
      - cbn [snd]. rewrite Hg. discriminate. }
    split; [apply Hrun, Hnp | exact Hnp].
  - rewrite !slash_cancel_eq. unfold get_schedule. rewrite Hin. cbn [snd].
    eexists. split; reflexivity.
Qed.

(** *** Creating a schedule and looking it up *)

Lemma find_row_new (sid : Z) (l : list schedule) (x : schedule) :
  id x = sid -> Forall (fun r => id r < sid) l ->
  find (fun r => id r =? sid) (l ++ [x]) = Some x.
Proof.
  intros Hx. induction 1 as [| r l Hr _ IH]; cbn.
  - now rewrite (proj2 (Z.eqb_eq _ _) Hx).
  - rewrite (proj2 (Z.eqb_neq _ _)) by lia. exact IH.
Qed.

Lemma pretty_time_local_stored (run_utc : datetime) (r : schedule) :
  run_at r = instant run_utc ->
  pretty_time_local tz (run_at_datetime r) = pretty_time_local tz run_utc.
Proof.
  intros E. unfold pretty_time_local, astimezone, run_at_datetime.
  f_equal. f_equal. f_equal.
  unfold instant at 1; cbn [wall tz_of UTC utcoffset].
  rewrite to_us_of_us, E. lia.
Qed.

(** X9. On a table with distinct ids, [/get] of the id that [/scheduledm]
    has just announced finds the new schedule: the recipient, the status
    [pending], the local time that the creation announced, and the message
    and the URL of the file as given, with [[no text]] and [[none]] for
    what is absent or empty. (Were the announced id ever outside the
    32-bit range of the [id] column, the lookup would raise [DataError].)
    When the time does not parse nothing is created. *)
Theorem scheduled_then_get (now : Z) (u : user) (time : string)
    (message : option string) (file : option attachment) (s : state World) :
  fresh_ids (db s) ->
  match slash_scheduledm tz now u time message file s with
  | (inr (Scheduled sid _ shown), s1) =>
      if in_int32 sid
      then slash_get tz sid s1
           = (inr (Details sid (u_id u) shown pending
                           (opt_or message "[no text]")
                           (opt_or (option_map url file) "[none]")), s1)
      else exists msg, slash_get tz sid s1 = (inl (DataError msg), s1)
  | (_, s1) => s1 = s
  end.
Proof.
  intros [_ Hlt]. unfold slash_scheduledm.
  destruct (parse_time_12h_to_utc tz now time) as [e | run_utc] eqn:Hp.
  - unfold parse_time_12h_to_utc in Hp.
    destruct (strptime_I_M_p (strip time)); [discriminate |].
    injection Hp as <-. reflexivity.
  - unfold bind, query, ret, add_schedule; cbn [fst snd db world console].
    unfold slash_get, bind, get_schedule_m, get_schedule, ret;
      cbn [db world console].
    destruct (in_int32 (next_id (db s))); [| eexists; reflexivity].
    unfold find_row; cbn [rows].
    erewrite find_row_new; [| reflexivity | exact Hlt].
    cbn [Store.id Store.user_id Store.status_of Store.message
         Store.attachment_url].
    rewrite (pretty_time_local_stored run_utc) by reflexivity.
    reflexivity.
Qed.

(** *** Listing *)

(** X10. [/list] changes nothing. It answers with the empty-state message
    exactly when the table has no row; otherwise with one line per row of
    the table, in ascending order of [run_at], each line showing the id,
    the recipient, the local time, the status and whether the row has a
    non-empty attachment URL. *)
Theorem slash_list_spec (s : state World) :
  exists sorted,
    Permutation sorted (rows (db s)) /\
    StronglySorted by_run_at sorted /\
    slash_list tz s
    = (inr match rows (db s) with
           | [] => NoSchedules
           | _ => Listing (map (fun r =>
                                  mk_line (id r) (user_id r)
                                    (pretty_time_local tz (run_at_datetime r))
                                    (status_of r)
                                    (match attachment_url r with
                                     | Some a => negb (String.eqb a "")
                                     | None => false
                                     end)) sorted)
           end, s).
Proof.
  exists (get_all_schedules (db s)).
  split; [apply order_by_run_at_perm |]. split; [apply order_by_run_at_sorted |].
  unfold slash_list, bind, query, ret; cbn [db world console].
  rewrite state_eta.
  pose proof (order_by_run_at_perm (rows (db s))) as Hperm.
  fold (get_all_schedules (db s)) in Hperm.
  destruct (get_all_schedules (db s)) as [| x l] eqn:E.
  - apply Permutation_nil in Hperm. now rewrite Hperm.
  - destruct (rows (db s)) as [| y l'] eqn:E'.
    + apply Permutation_sym, Permutation_nil in Hperm. discriminate.
    + f_equal. f_equal. f_equal. apply map_ext. intros r.
      unfold line_of. f_equal.
      destruct (attachment_url r) as [[| c a] |]; reflexivity.
Qed.

(** *** Sending at once *)

(** X11. [/send] never raises and touches neither the table nor the
    console. It answers that the message was sent when the download (if
    there is a file) and the send both return, and otherwise with the text
    of the exception; the file goes out under the name derived from its
    URL, and a missing message goes out as the empty text. *)
Theorem slash_send_spec (u : user) (message : option string)
    (file : option attachment) (s : state World) :
  slash_send http_get user_send u message file s
  = (let '(r, w) :=
       match file with
       | None => user_send u (opt_or message "") None (world s)
       | Some f =>
           match http_get (url f) (world s) with
           | (inl e, w) => (inl e, w)
           | (inr data, w) =>
               user_send u (opt_or message "")
                         (Some (data, filename_of (url f))) w
           end
       end in
     (inr match r with
          | inr _ => SentDM (display_name u)
          | inl e => SendFailed (str_of_exception e)
          end, mk_state (db s) w (console s))).
Proof.
  unfold slash_send, download_bytes, try_except, bind, call, ret.
  destruct file as [f |]; cbn [db world console].
  - destruct (http_get (url f) (world s)) as [[e | data] w]; cbn; [reflexivity |].
    destruct (user_send u (opt_or message "") (Some (data, filename_of (url f))) w)
      as [[e | []] w']; reflexivity.
  - destruct (user_send u (opt_or message "") None (world s)) as [[e | []] w];
      reflexivity.
Qed.

End WithWorld.

Lemma scheduled_then_get_witness :
  fresh_ids (db start) /\
  match slash_scheduledm riyadh new_year_morning (mk_user 7 "member") "10:01 AM"
                         (Some "hi") None start with
  | (inr (Scheduled sid _ shown), s1) =>
      if in_int32 sid
      then slash_get riyadh sid s1
           = (inr (Details sid (u_id (mk_user 7 "member")) shown pending
                           (opt_or (Some "hi") "[no text]")
                           (opt_or (option_map url None) "[none]")), s1)
      else exists msg, slash_get riyadh sid s1 = (inl (DataError msg), s1)
  | (_, s1) => s1 = start
  end.
Proof.
  assert (H : fresh_ids (db start)) by (split; constructor).
  split; [exact H |].
  exact (scheduled_then_get riyadh new_year_morning (mk_user 7 "member")
           "10:01 AM" (Some "hi") None start H).
Defined.

End CommandsFacts.

(** ** More on the dispatcher and on runs of the program *)

Module DispatcherFacts.
Import PyStr Strptime Datetime TimeConverter Store Bot Scenario.
Import DatetimeFacts StrptimeFacts TimeConverterFacts StoreFacts BotFacts.

(** What [fetch_due] returns are rows of the table, pending and due. *)
Lemma fetch_due_rows_due (limit now : Z) (t : table) (rs : list schedule) :
  fetch_due limit now t = inr rs ->
  Forall (fun r => In r (rows t) /\ status_of r = pending /\ run_at r <= now) rs.
Proof.
  unfold fetch_due. destruct (limit <? 0); [discriminate |]. intros [= <-].
  apply Forall_forall. intros r Hr.
  assert (Hin : In r (filter (is_due now) (rows t))).
  { apply (Permutation_in r (order_by_run_at_perm _)).
    rewrite <- (firstn_skipn (Z.to_nat limit)). apply in_or_app; now left. }
  apply filter_In in Hin as [Hin Hd]. unfold is_due in Hd.
  apply andb_true_iff in Hd as [Hp Hle].
  apply status_eqb_eq in Hp. apply Z.leb_le in Hle. auto.
Qed.

Lemma set_status_same (r : schedule) : r = set_status (status_of r) r.
Proof. destruct r; reflexivity. Qed.

(** A map that rewrites statuses keeps every row in its place. *)
Lemma rows_kept_by_map (f : schedule -> schedule) (l : list schedule) :
  (forall r, f r = set_status (status_of (f r)) r) ->
  Forall2 (fun r r' => r' = set_status (status_of r') r) l (map f l).
Proof.
  intros Hf. induction l as [| r l IH]; cbn; constructor; [apply Hf | exact IH].
Qed.

Lemma rows_kept_refl (l : list schedule) :
  Forall2 (fun r r' => r' = set_status (status_of r') r) l l.
Proof. induction l; constructor; [apply set_status_same | assumption]. Qed.

Section WithWorld.

Variable tz : timezone.
Context {World : Type}.
Variable fetch_user : Z -> World -> (exception + user) * World.
Variable http_get : string -> World -> (exception + string) * World.
Variable user_send :
  user -> string -> option (string * string) -> World -> (exception + unit) * World.

Abbreviation process_due := (Bot.process_due fetch_user http_get user_send).
Abbreviation process_row := (Bot.process_row fetch_user http_get user_send).
Abbreviation after_row := (Bot.after_row fetch_user http_get user_send).
Abbreviation step := (Bot.step tz fetch_user http_get user_send).

Lemma process_due_fold (now : Z) (s : state World) (batch : list schedule) :
  fetch_due 30 now (db s) = inr batch ->
  process_due now s = (inr tt, fold_left after_row batch s).
Proof.
  intros Hf. unfold Bot.process_due, bind, fetch_due_m. rewrite Hf.
  apply for_each_process_row.
Qed.

(** *** A tick and the rows it did not fetch *)

Lemma find_row_after_row_other (sid : Z) (s : state World) (row : schedule) :
  sid <> id row ->
  find_row sid (db (after_row s row)) = find_row sid (db s).
Proof.
  intros Hne. destruct (db_after_row fetch_user http_get user_send s row)
    as (st & _ & ->).
  unfold find_row, mark_sent; cbn [rows].
  rewrite find_row_map_id by (intros r; destruct (id r =? id row); reflexivity).
  destruct (find (fun r => id r =? sid) (rows (db s))) as [r |] eqn:E;
    [| reflexivity].
  apply find_some in E as [_ E]. apply Z.eqb_eq in E. cbn.
  rewrite (proj2 (Z.eqb_neq _ _)) by congruence. reflexivity.
Qed.

(** X12. A tick leaves alone every schedule it did not fetch: a lookup by
    an id that is not in the batch gives the same row after the tick as
    before. *)
Theorem tick_touches_only_its_batch (now : Z) (s : state World)
    (batch : list schedule) (sid : Z) :
  fetch_due 30 now (db s) = inr batch ->
  ~ In sid (map id batch) ->
  find_row sid (db (snd (process_due now s))) = find_row sid (db s).
Proof.
  intros Hf. rewrite (process_due_fold now s batch Hf); cbn [snd]. clear Hf.
  revert s. induction batch as [| row batch IH]; intros s Hn; [reflexivity |].
  cbn [fold_left]. rewrite IH by (intros H; apply Hn; now right).
  apply find_row_after_row_other. intros E. apply Hn. left. congruence.
Qed.

(** *** No second delivery *)

Lemma after_row_marks_all (s : state World) (row : schedule) :
  Forall (fun r => id r = id row -> delivered (status_of r))
         (rows (db (after_row s row))).
Proof.
  destruct (db_after_row fetch_user http_get user_send s row) as (st & Hst & ->).
  unfold mark_sent; cbn [rows]. apply Forall_map, Forall_forall.
  intros r _ E. destruct (Z.eqb_spec (id r) (id row)) as [_ | Hne];
    [exact Hst | contradiction].
Qed.

Lemma after_row_keeps_marks (sid : Z) (s : state World) (row : schedule) :
  Forall (fun r => id r = sid -> delivered (status_of r)) (rows (db s)) ->
  Forall (fun r => id r = sid -> delivered (status_of r))
         (rows (db (after_row s row))).
Proof.
  intros H. destruct (db_after_row fetch_user http_get user_send s row)
    as (st & Hst & ->).
  unfold mark_sent; cbn [rows]. apply Forall_map.
  eapply Forall_impl; [| exact H]. intros r Hr E.
  destruct (id r =? id row); [exact Hst | now apply Hr].
Qed.

Lemma fold_keeps_marks (sid : Z) (batch : list schedule) (s : state World) :
  Forall (fun r => id r = sid -> delivered (status_of r)) (rows (db s)) ->
  Forall (fun r => id r = sid -> delivered (status_of r))
         (rows (db (fold_left after_row batch s))).
Proof.
  revert s. induction batch as [| row batch IH]; intros s H; [exact H |].
  cbn [fold_left]. now apply IH, after_row_keeps_marks.
Qed.

Lemma fold_marks_all (batch : list schedule) (s : state World) (b : schedule) :
  In b batch ->
  Forall (fun r => id r = id b -> delivered (status_of r))
         (rows (db (fold_left after_row batch s))).
Proof.
  revert s. induction batch as [| row batch IH]; intros s; [contradiction |].
  cbn [fold_left]. intros [-> | Hin].
  - apply fold_keeps_marks, after_row_marks_all.
  - now apply IH.
Qed.

(** X13. No row that a tick has processed is fetched again: whatever the
    limit and the instant of a later [fetch_due], none of the rows it
    returns has the id of a row of the batch. *)
Theorem processed_rows_are_not_fetched_again (now now' limit : Z)
    (s : state World) :
  exists batch,
    fetch_due 30 now (db s) = inr batch /\
    match fetch_due limit now' (db (snd (process_due now s))) with
    | inr later => Forall (fun r => ~ In (id r) (map id batch)) later
    | inl _ => limit < 0
    end.
Proof.
  destruct (fetch_due 30 now (db s)) as [e | batch] eqn:Hf;
    [unfold fetch_due in Hf; discriminate |].
  exists batch. split; [reflexivity |].
  rewrite (process_due_fold now s batch Hf); cbn [snd].
  destruct (fetch_due limit now' (db (fold_left after_row batch s)))
    as [e | later] eqn:Hl.
  - unfold fetch_due in Hl. destruct (Z.ltb_spec limit 0); [lia | discriminate].
  - pose proof (fetch_due_rows_due _ _ _ _ Hl) as Hdue.
    eapply Forall_impl; [| exact Hdue]. intros r (Hin & Hp & _) Hb.
    apply in_map_iff in Hb as (b & Eb & Hb).
    pose proof (fold_marks_all batch s b Hb) as Hm.
    rewrite Forall_forall in Hm. specialize (Hm r Hin (eq_sym Eb)).
    rewrite Hp in Hm. destruct Hm; discriminate.
Qed.

(** *** A tick with nothing to do *)

(** X14. When no row is pending and due, a tick changes nothing: no call
    to Discord or the web, no update, no line printed. *)
Theorem idle_tick_is_a_no_op (now : Z) (s : state World) :
  Forall (fun r => is_due now r = false) (rows (db s)) ->
  process_due now s = (inr tt, s).
Proof.
  intros H. apply (process_due_fold now s []).
  unfold fetch_due; cbn [Z.ltb Z.compare].
  assert (E : filter (is_due now) (rows (db s)) = []).
  { induction H as [| r l Hr _ IH]; cbn; [reflexivity |]. now rewrite Hr. }
  rewrite E. reflexivity.
Qed.

(** *** Rows are kept *)

(** X16. No step deletes, moves or rewrites a row: after a step the table
    is the old rows in their places, each the same but possibly for its
    status, followed by the rows the step has added. *)
Theorem step_keeps_rows (s s' : system) :
  step s s' ->
  exists kept added,
    rows (db (bot s')) = (kept ++ added)%list /\
    Forall2 (fun r r' => r' = set_status (status_of r') r)
            (rows (db (bot s))) kept.
Proof.
  intros Hstep.
  destruct Hstep as [now u time message file s | sid s | now rows s Hidle Hfetch
                    | row rest s Hrows]; cbn [bot].
  - destruct (slash_scheduledm_db tz now u time message file (bot s))
      as [-> | [run_utc ->]].
    + exists (rows (db (bot s))), []. rewrite app_nil_r.
      split; [reflexivity | apply rows_kept_refl].
    + unfold add_schedule; cbn [snd rows]. eexists. eexists.
      split; [reflexivity | apply rows_kept_refl].
  - destruct (slash_cancel_db sid (bot s)) as [-> | ->].
    + exists (Store.rows (db (bot s))), []. rewrite app_nil_r.
      split; [reflexivity | apply rows_kept_refl].
    + unfold cancel_schedule; cbn [snd Store.rows]. eexists. exists [].
      rewrite app_nil_r. split; [reflexivity |].
      apply rows_kept_by_map. intros r.
      destruct (cancelable sid r); [reflexivity | apply set_status_same].
  - exists (Store.rows (db (bot s))), []. rewrite app_nil_r.
    split; [reflexivity | apply rows_kept_refl].
  - rewrite process_row_after_row; cbn [snd].
    destruct (db_after_row fetch_user http_get user_send (bot s) row)
      as (st & _ & ->).
    unfold mark_sent; cbn [Store.rows]. eexists. exists [].
    rewrite app_nil_r. split; [reflexivity |].
    apply rows_kept_by_map. intros r.
    destruct (id r =? id row); [reflexivity | apply set_status_same].
Qed.

(** *** Every due schedule gets its turn *)

(** X18. When at most 30 rows are pending and due, the tick delivers
    every one of them: each pending row of the table whose time has come
    is [sent] or [failed] when the tick is over. *)
Theorem due_schedule_is_delivered (now : Z) (s : state World) (r : schedule) :
  (List.length (filter (is_due now) (rows (db s))) <= 30)%nat ->
  In r (rows (db s)) -> is_due now r = true ->
  exists st, status_in (id r) (snd (process_due now s)) = Some st /\
             delivered st.
Proof.
  intros Hlen Hin Hdue.
  set (due := filter (is_due now) (rows (db s))) in *.
  assert (Hf : fetch_due 30 now (db s) = inr (order_by_run_at due)).
  { unfold fetch_due; cbn [Z.ltb Z.compare]. fold due. f_equal.
    apply firstn_all2.
    rewrite (Permutation_length (order_by_run_at_perm due)).
    change (Z.to_nat 30) with 30%nat. exact Hlen. }
  rewrite (process_due_fold now s _ Hf); cbn [snd].
  assert (Hall : Forall (fun row => status_in (id row) s <> None)
                        (order_by_run_at due)).
  { eapply Forall_impl; [| exact (fetch_due_rows_in_table _ _ _ _ Hf)].
    intros row Hrow. unfold status_in, find_row.
    destruct (find (fun x => id x =? id row) (rows (db s))) eqn:Hfind;
      [discriminate |].
    pose proof (find_none _ _ Hfind row Hrow) as Hno. cbn in Hno.
    rewrite Z.eqb_refl in Hno. discriminate. }
  pose proof (fold_after_row_all fetch_user http_get user_send _ s Hall) as Hd.
  rewrite Forall_forall in Hd. apply Hd.
  apply (Permutation_in r (Permutation_sym (order_by_run_at_perm due))).
  apply filter_In. auto.
Qed.

End WithWorld.

(** *** A new schedule is not due yet *)

(** X17. In a zone of constant offset, on a table with distinct ids, the
    schedule that [/scheduledm] creates at the instant [now] is not among
    the rows [fetch_due] returns at [now] or before; when the time does not
    parse nothing is created. *)
Theorem new_schedule_is_not_due {World : Type} (off now now' limit : Z)
    (u : user) (time : string) (message : option string)
    (file : option attachment) (s : state World) :
  fresh_ids (db s) -> now' <= now ->
  match slash_scheduledm (static_tz off) now u time message file s with
  | (inr (Scheduled sid _ _), s1) =>
      match fetch_due limit now' (db s1) with
      | inr rs => ~ In sid (map id rs)
      | inl _ => limit < 0
      end
  | (_, s1) => s1 = s
  end.
Proof.
  intros [_ Hlt] Hnow. unfold slash_scheduledm.
  destruct (strptime_I_M_p (strip time)) as [t |] eqn:Hs.
  - destruct (parse_time_static_next_occurrence off now time t Hs)
      as (run_utc & -> & _ & Hfut & _).
    unfold bind, query, ret, add_schedule; cbn [fst snd db world console].
    match goal with
    | |- match fetch_due _ _ ?t with _ => _ end =>
        destruct (fetch_due limit now' t) as [e | rs] eqn:Hf
    end.
    + unfold fetch_due in Hf. destruct (Z.ltb_spec limit 0); [lia | discriminate].
    + pose proof (fetch_due_rows_due _ _ _ _ Hf) as Hdue. cbn [rows] in Hdue.
      intros Hin. apply in_map_iff in Hin as (r & Er & Hr).
      rewrite Forall_forall in Hdue. destruct (Hdue r Hr) as (Hin & _ & Hle).
      apply in_app_or in Hin as [Hold | [<- | []]].
      * rewrite Forall_forall in Hlt. specialize (Hlt r Hold). lia.
      * cbn [run_at] in Hle. lia.
  - unfold parse_time_12h_to_utc. rewrite Hs. reflexivity.
Qed.

(** *** At concrete inputs *)

Lemma tick_touches_only_its_batch_witness :
  find_row 2 (db two_schedules) = Some the_evening_row /\
  fetch_due 30 (new_year_morning + US_PER_HOUR) (db two_schedules) = inr [the_row] /\
  ~ In 2 (map id [the_row]) /\
  find_row 2
    (db (snd (Bot.process_due fetch_user http_get user_send
                (new_year_morning + US_PER_HOUR) two_schedules)))
  = find_row 2 (db two_schedules).
Proof.
  assert (H0 : find_row 2 (db two_schedules) = Some the_evening_row)
    by (vm_compute; reflexivity).
  assert (H1 : fetch_due 30 (new_year_morning + US_PER_HOUR) (db two_schedules)
               = inr [the_row]) by (vm_compute; reflexivity).
  assert (H2 : ~ In 2 (map id [the_row])) by (intros [H | []]; discriminate H).
  split; [exact H0 |]. split; [exact H1 |]. split; [exact H2 |].
  exact (tick_touches_only_its_batch fetch_user http_get user_send
           (new_year_morning + US_PER_HOUR) two_schedules [the_row] 2 H1 H2).
Defined.

Lemma idle_tick_is_a_no_op_witness :
  rows (db (bot created)) = [the_row] /\
  Forall (fun r => is_due new_year_morning r = false) (rows (db (bot created))) /\
  Bot.process_due fetch_user http_get user_send new_year_morning (bot created)
  = (inr tt, bot created).
Proof.
  assert (H0 : rows (db (bot created)) = [the_row]) by (vm_compute; reflexivity).
  assert (H : Forall (fun r => is_due new_year_morning r = false)
                     (rows (db (bot created)))).
  { rewrite H0. constructor; [vm_compute; reflexivity | constructor]. }
  split; [exact H0 |]. split; [exact H |].
  exact (idle_tick_is_a_no_op fetch_user http_get user_send new_year_morning
           (bot created) H).
Defined.

Lemma step_keeps_rows_witness :
  Bot.step riyadh fetch_user http_get user_send idle created /\
  exists kept added,
    rows (db (bot created)) = (kept ++ added)%list /\
    Forall2 (fun r r' => r' = set_status (status_of r') r)
            (rows (db (bot idle))) kept.
Proof.
  assert (H : Bot.step riyadh fetch_user http_get user_send idle created)
    by apply step_scheduledm.
  split; [exact H |].
  exact (step_keeps_rows riyadh fetch_user http_get user_send idle created H).
Defined.

Lemma new_schedule_is_not_due_witness :
  fresh_ids (db start) /\ new_year_morning <= new_year_morning /\
  match slash_scheduledm (static_tz 180) new_year_morning (mk_user 7 "member")
                         "10:01 AM" (Some "hi") None start with
  | (inr (Scheduled sid _ _), s1) =>
      match fetch_due 30 new_year_morning (db s1) with
      | inr rs => ~ In sid (map id rs)
      | inl _ => 30 < 0
      end
  | (_, s1) => s1 = start
  end.
Proof.
  assert (H1 : fresh_ids (db start)) by (split; constructor).
  assert (H2 : new_year_morning <= new_year_morning) by apply Z.le_refl.
  split; [exact H1 |]. split; [exact H2 |].
  exact (new_schedule_is_not_due 180 new_year_morning new_year_morning 30
           (mk_user 7 "member") "10:01 AM" (Some "hi") None start H1 H2).
Defined.

Lemma due_schedule_is_delivered_witness :
  (List.length (filter (is_due (new_year_morning + US_PER_HOUR))
                       (rows (db (bot created)))) <= 30)%nat /\
  In the_row (rows (db (bot created))) /\
  is_due (new_year_morning + US_PER_HOUR) the_row = true /\
  exists st,
    status_in (id the_row)
      (snd (Bot.process_due fetch_user http_get user_send
              (new_year_morning + US_PER_HOUR) (bot created)))
    = Some st /\ delivered st.
Proof.
  assert (H1 : (List.length (filter (is_due (new_year_morning + US_PER_HOUR))
                                    (rows (db (bot created)))) <= 30)%nat)
    by (vm_compute; repeat constructor).
  assert (H2 : In the_row (rows (db (bot created))))
    by (vm_compute; left; reflexivity).
  assert (H3 : is_due (new_year_morning + US_PER_HOUR) the_row = true)
    by (vm_compute; reflexivity).
  split; [exact H1 |]. split; [exact H2 |]. split; [exact H3 |].
  exact (due_schedule_is_delivered fetch_user http_get user_send
           (new_year_morning + US_PER_HOUR) (bot created) the_row H1 H2 H3).
Defined.

(** Once schedule 1 is sent, a [/cancel 1] leaves it sent. *)
Lemma delivered_is_final_witness :
  let s := mk_system (bot tick_done) [] in
  let s' := mk_system (snd (slash_cancel 1 (bot tick_done))) [] in
  tick_invariant s /\
  Bot.step riyadh fetch_user http_get user_send s s' /\
  status_in 1 (bot s) = Some sent /\ delivered sent /\
  status_in 1 (bot s') = Some sent.
Proof.
  cbv zeta.
  assert (H1 : tick_invariant (mk_system (bot tick_done) [])).
  { split; [split; vm_compute |].
    - constructor; [intros [] | constructor].
    - constructor; [reflexivity | constructor].
    - split; constructor. }
  assert (H2 : Bot.step riyadh fetch_user http_get user_send
                 (mk_system (bot tick_done) [])
                 (mk_system (snd (slash_cancel 1 (bot tick_done))) []))
    by exact (step_cancel riyadh fetch_user http_get user_send 1
                (mk_system (bot tick_done) [])).
  assert (H3 : status_in 1 (bot (mk_system (bot tick_done) [])) = Some sent)
    by (vm_compute; reflexivity).
  assert (H4 : delivered sent) by (left; reflexivity).
  split; [exact H1 |]. split; [exact H2 |]. split; [exact H3 |].
  split; [exact H4 |].
  exact (delivered_is_final riyadh fetch_user http_get user_send _ _ 1 sent
           H1 H2 H3 H4).
Defined.

End DispatcherFacts.
